(** * rekall/args.py: command line parsing logic

    A shallow embedding of [src/rekall/args.py] (Python 2): the value
    coercers [IntParser] and [ArrayIntParser], the error handler of
    [RekallArgParser], the session update of [LoadProfileIntoSession], the
    sub-command enumeration of [parse_args] and the bundle loader
    [LoadPlugins], followed by the properties the specification states
    about them. *)

From Stdlib Require Import ZArith Ascii String List Lia Sorted Permutation.
From stdpp Require Import base option list strings gmap fin_maps.

Set Warnings "-register-all".
Local Open Scope Z_scope.

(** ** Python preliminaries *)

(** A function either returns or raises; [Raise] carries the exception. *)
Inductive res (E A : Type) : Type :=
| Ok (a : A)
| Raise (e : E).
Arguments Ok {E A} a.
Arguments Raise {E A} e.

Definition res_bind {E A B} (f : A → res E B) (m : res E A) : res E B :=
  match m with
  | Ok a => f a
  | Raise e => Raise e
  end.

#[global] Instance res_mret {E} : MRet (res E) := λ A a, Ok a.
#[global] Instance res_mbind {E} : MBind (res E) := λ A B f m, res_bind f m.

(** Python objects that travel through a namespace or the session state. *)
Inductive pyobj : Type :=
| PNone
| PBool (b : bool)
| PInt (n : Z)
| PStr (s : string)
| PList (l : list pyobj).

(** Truth value of an object, as [if x:] tests it. *)
Definition truthy (v : pyobj) : bool :=
  match v with
  | PNone => false
  | PBool b => b
  | PInt n => negb (n =? 0)
  | PStr s => negb (String.eqb s "")
  | PList l => match l with [] => false | _ => true end
  end.

Module Py.

Definition code (c : ascii) : Z := Z.of_N (N_of_ascii c).

(** [str.isspace] on one byte of a [str]. *)
Definition isspace (c : ascii) : bool :=
  let n := code c in (n =? 32) || ((9 <=? n) && (n <=? 13)).

(** [str.lower] *)
Definition lower_char (c : ascii) : ascii :=
  let n := code c in
  if (65 <=? n) && (n <=? 90) then ascii_of_N (Z.to_N (n + 32)) else c.

Fixpoint lower (s : string) : string :=
  match s with
  | EmptyString => EmptyString
  | String c r => String (lower_char c) (lower r)
  end.

(** [s.startswith(p)] *)
Fixpoint startswith (s p : string) {struct p} : bool :=
  match p, s with
  | EmptyString, _ => true
  | String a p', String b s' => Ascii.eqb a b && startswith s' p'
  | String _ _, EmptyString => false
  end.

(** [s.split(sep)] for a separator of one character: the pieces between
    the separators, in order; a string without separator is one piece. *)
Fixpoint split (sep : ascii) (s : string) : list string :=
  match s with
  | EmptyString => [EmptyString]
  | String c r =>
      if Ascii.eqb c sep then EmptyString :: split sep r
      else match split sep r with
           | p :: ps => String c p :: ps
           | [] => [String c EmptyString]
           end
  end.

(** [sep.join(l)] *)
Fixpoint join (sep : ascii) (l : list string) : string :=
  match l with
  | [] => EmptyString
  | [x] => x
  | x :: r => (x +:+ String sep (join sep r))
  end.

(** Value of a digit in [int(s, base)]: 0-9, then a-z and A-Z from ten. *)
Definition digit_val (c : ascii) : option Z :=
  let n := code c in
  if (48 <=? n) && (n <=? 57) then Some (n - 48)
  else if (97 <=? n) && (n <=? 122) then Some (n - 87)
  else if (65 <=? n) && (n <=? 90) then Some (n - 55)
  else None.

Definition digit_in (base : Z) (c : ascii) : option Z :=
  match digit_val c with
  | Some d => if d <? base then Some d else None
  | None => None
  end.

Fixpoint lstrip (s : string) : string :=
  match s with
  | String c r => if isspace c then lstrip r else s
  | EmptyString => EmptyString
  end.

Fixpoint all_space (s : string) : bool :=
  match s with
  | String c r => isspace c && all_space r
  | EmptyString => true
  end.

(** The longest run of digits of the base, accumulated from the left. *)
Fixpoint read_digits (base acc : Z) (s : string) : Z * string :=
  match s with
  | String c r =>
      match digit_in base c with
      | Some d => read_digits base (acc * base + d) r
      | None => (acc, s)
      end
  | EmptyString => (acc, EmptyString)
  end.

Definition read_sign (s : string) : bool * string :=
  match s with
  | String "-" r => (true, r)
  | String "+" r => (false, r)
  | _ => (false, s)
  end.

(** With base 16 a [0x] or [0X] before a hexadecimal digit is skipped. *)
Definition skip_radix (base : Z) (s : string) : string :=
  match s with
  | String "0" (String x (String c r as t)) =>
      if (base =? 16) && (Ascii.eqb x "x" || Ascii.eqb x "X")
         && bool_decide (is_Some (digit_in 16 c))
      then t else s
  | _ => s
  end.

(** [int(s, base)] on a [str]: surrounding white space, an optional sign,
    then at least one digit and nothing but digits; [None] stands for
    [ValueError]. *)
Definition int (s : string) (base : Z) : option Z :=
  let '(neg, body) := read_sign (lstrip s) in
  let digits := skip_radix base body in
  match digits with
  | String c _ =>
      match digit_in base c with
      | Some _ =>
          let '(n, rest) := read_digits base 0 digits in
          if all_space rest then Some (if neg then - n else n) else None
      | None => None
      end
  | EmptyString => None
  end.

End Py.

(** ** Value coercers: [IntParser], [ArrayIntParser] *)

Module IntParser.

(** [argparse.ArgumentError(self, message)] *)
Inductive exn : Type :=
| ArgumentError (message : string).

Definition newline : ascii := ascii_of_nat 10.

(** The alternation [(mb|kb|m|k)] at the head of [s], alternatives tried
    from the left; the text of the group. *)
Definition alternation (s : string) : option string :=
  if Py.startswith s "mb" then Some "mb"
  else if Py.startswith s "kb" then Some "kb"
  else if Py.startswith s "m" then Some "m"
  else if Py.startswith s "k" then Some "k"
  else None.

(** The pattern of line 59 matched at the head of [s], as [re.match]
    does: the greedy first group takes as many characters as it can (any
    but a line feed) and gives them back one at a time until the
    alternation matches; groups 1 and 2. *)
Fixpoint match_here (s : string) : option (string * string) :=
  match s with
  | EmptyString => None
  | String c r =>
      match (if Ascii.eqb c newline then None else match_here r) with
      | Some (g1, g2) => Some (String c g1, g2)
      | None =>
          match alternation s with
          | Some g2 => Some (EmptyString, g2)
          | None => None
          end
      end
  end.

(** [re.search] with the pattern of line 59: the first position, from
    the left, where the pattern matches. *)
Fixpoint search (s : string) : option (string * string) :=
  match match_here s with
  | Some m => Some m
  | None =>
      match s with
      | String _ r => search r
      | EmptyString => None
      end
  end.

(** The multiplier chosen at lines 62 to 66. *)
Definition multiplier_of (suffix : string) : Z :=
  if String.eqb suffix "mb" || String.eqb suffix "m" then 1024 * 1024
  else if String.eqb suffix "kb" || String.eqb suffix "k" then 1024
  else 1.

Definition parse_int (value : string) : res exn Z :=
  let '(value, multiplier) :=
    match search value with
    | Some (g1, g2) => (g1, multiplier_of (Py.lower g2))
    | None => (value, 1)
    end in
  let converted :=
    if Py.startswith value "0x" then Py.int value 16 else Py.int value 10 in
  match converted with
  | Some n => Ok (n * multiplier)
  | None => Raise (ArgumentError "Invalid integer value")
  end.

(** No character of [s] is a lower-case [m] or [k]. *)
Fixpoint no_suffix_char (s : string) : bool :=
  match s with
  | EmptyString => true
  | String c r => negb (Ascii.eqb c "m") && negb (Ascii.eqb c "k") && no_suffix_char r
  end.

Fixpoint no_newline (s : string) : bool :=
  match s with
  | EmptyString => true
  | String c r => negb (Ascii.eqb c newline) && no_newline r
  end.

(** The numeric conversion of lines 68 to 74 on what is left of the
    token. *)
Definition convert (value : string) (multiplier : Z) : res exn Z :=
  match (if Py.startswith value "0x" then Py.int value 16 else Py.int value 10) with
  | Some n => Ok (n * multiplier)
  | None => Raise (ArgumentError "Invalid integer value")
  end.

Definition suffixes : list string := ["mb"; "kb"; "m"; "k"].

(** [IntParser.__call__]: [setattr(namespace, self.dest, ...)] *)
Definition call (dest : string) (namespace : gmap string pyobj)
    (values : string) : res exn (gmap string pyobj) :=
  n ← parse_int values; Ok (<[dest := PInt n]> namespace).

End IntParser.

Module ArrayIntParser.
Import IntParser.

(** What argparse hands to [__call__]: one string, or a list of them. *)
Inductive tokens : Type :=
| Single (value : string)
| Several (values : list string).

(** Lines 96 and 97. *)
Definition as_list (values : tokens) : list string :=
  match values with
  | Single value => [value]
  | Several values => values
  end.

(** [[self.parse_int(x) for x in xs]]: left to right, the first failure
    is raised. *)
Fixpoint comprehension (xs : list string) : res exn (list Z) :=
  match xs with
  | [] => Ok []
  | x :: r => n ← parse_int x; ns ← comprehension r; Ok (n :: ns)
  end.

(** The loop of lines 99 and 100 over [values], extending [result]. *)
Fixpoint extend_all (values : list string) (result : list Z)
    : res exn (list Z) :=
  match values with
  | [] => Ok result
  | value :: r =>
      ns ← comprehension (Py.split "," value); extend_all r (result ++ ns)
  end.

(** The list that [__call__] stores. *)
Definition parse_list (values : tokens) : res exn (list Z) :=
  extend_all (as_list values) [].

Definition call (dest : string) (namespace : gmap string pyobj)
    (values : tokens) : res exn (gmap string pyobj) :=
  ns ← parse_list values; Ok (<[dest := PList (PInt <$> ns)]> namespace).

(** A sub-token holds no comma. *)
Fixpoint comma_free (s : string) : bool :=
  match s with
  | EmptyString => true
  | String c r => negb (Ascii.eqb c ",") && comma_free r
  end.

(** A token list in one of the accepted forms stands for groups of
    sub-tokens: a group is written as one token, its members joined by
    commas. *)
Definition well_formed_group (xs : list string) : Prop :=
  xs ≠ [] ∧ Forall (λ x, comma_free x = true) xs.

End ArrayIntParser.

(** ** [RekallArgParser]: the error handler *)

Module RekallArgParser.

(** The parser object, as far as the handlers read it; [ignore_errors] is
    the class attribute of line 148. *)
Record t : Type := mk {
  prog : string;
  usage : string;
  ignore_errors : bool
}.

Definition new (prog usage : string) : t :=
  {| prog := prog; usage := usage; ignore_errors := false |}.

Inductive exn : Type :=
| SystemExit (status : Z).

(** A handler writes to the standard error stream, then returns or
    raises. *)
Definition handled : Type := list string * res exn unit.

(** [argparse.ArgumentParser.exit]: the message, then [sys.exit]. *)
Definition ArgumentParser_exit (status : Z) (message : string) : handled :=
  ([message], Raise (SystemExit status)).

(** Lines 174 to 178. *)
Definition exit (self : t) (status : Z) (message : string) : handled :=
  if ignore_errors self then ([], Ok tt)
  else ArgumentParser_exit status message.

(** [argparse.ArgumentParser.error]: the usage, then [self.exit] with
    status 2. *)
Definition ArgumentParser_error (self : t) (message : string) : handled :=
  let '(written, r) :=
    exit self 2 (prog self +:+ ": error: " +:+ message +:+ String (ascii_of_nat 10) "") in
  (usage self :: written, r).

(** Lines 150 to 158. *)
Definition error (self : t) (message : string) : handled :=
  if ignore_errors self then ([], Ok tt)
  else if String.eqb message "too few arguments" then ([], Ok tt)
  else ArgumentParser_error self message.

(** Lines 160 to 166: the mode is stored, then argparse parses with this
    parser, calling [error] on a failure. *)
Definition parse_known_args {R : Type} (super_parse_known_args : t → R)
    (self : t) (force : bool) : t * R :=
  let self := {| prog := prog self; usage := usage self; ignore_errors := force |} in
  (self, super_parse_known_args self).

(** The handler swallowed the failure: it returned instead of raising. *)
Definition swallowed (h : handled) : bool :=
  match h.2 with
  | Ok _ => true
  | Raise _ => false
  end.

(** The parser as [parse_args] uses it at line 300: [parse_args] of
    argparse calls [parse_known_args] without [force], the strict mode. *)
Definition strict_parser : RekallArgParser.t :=
  (parse_known_args (λ _, tt) (new "rekall" "usage: rekall") false).1.

End RekallArgParser.

(** ** Phase 1: the session state update of [LoadProfileIntoSession] *)

Module SessionState.

(** Modelled from the spec: the session state ([rekall/session.py] is not
    among the sources), "a mutable, process-wide key/value store with
    scoped-transaction semantics (enter a transaction, mutate, commit on
    exit)", with [Set(key, value)] and [Get(key)]. *)
Definition Set_ (key : string) (v : pyobj) (state : gmap string pyobj)
    : gmap string pyobj :=
  <[key := v]> state.

Definition Get (key : string) (state : gmap string pyobj) : option pyobj :=
  state !! key.

(** [with state as s: body]: the body works on the entered state and what
    it leaves is committed on exit. *)
Definition transaction (body : gmap string pyobj → gmap string pyobj)
    (state : gmap string pyobj) : gmap string pyobj :=
  let entered := state in
  let left := body entered in
  left.

End SessionState.

Section Phase1.

(** [config.MergeConfigOptions] ([rekall/config.py] is not among the
    sources): whatever it writes into the state. *)
Variable MergeConfigOptions : gmap string pyobj → gmap string pyobj.

(** [getattr(known_args, attr, None)] and its truth value. *)
Definition getattr_truthy (known_args : gmap string pyobj) (attr : string) : bool :=
  match known_args !! attr with
  | Some v => truthy v
  | None => false
  end.

(** Lines 238 and 239. *)
Definition force_verbose (known_args : gmap string pyobj) : gmap string pyobj :=
  if getattr_truthy known_args "verbose"
  then <["logging" := PStr "DEBUG"]> known_args
  else known_args.

(** Lines 244 and 245: every item of [known_args.__dict__] is [Set]. *)
Definition set_all (known_args state : gmap string pyobj) : gmap string pyobj :=
  map_fold (λ arg v state, SessionState.Set_ arg v state) state known_args.

(** Lines 241 to 245. *)
Definition merge_and_set (known_args state : gmap string pyobj)
    : gmap string pyobj :=
  SessionState.transaction
    (λ state, set_all known_args (MergeConfigOptions state)) state.

(** The session state [LoadProfileIntoSession] leaves at line 246, from
    the namespace parsed at line 235. *)
Definition LoadProfileIntoSession_state (known_args state : gmap string pyobj)
    : gmap string pyobj :=
  merge_and_set (force_verbose known_args) state.

End Phase1.

(** ** Phase 2: the sub-parsers of [parse_args] *)

Module Phase2.

(** A parser made by [subparsers.add_parser], as far as lines 293 to 297
    fill it. *)
Record SubParser : Type := mkSubParser {
  parser_name : string;
  parser_help : string;
  parser_description : string;
  parser_arguments : list string;
  parser_defaults : gmap string pyobj
}.

Definition add_parser (name help description : string) : SubParser :=
  {| parser_name := name; parser_help := help;
     parser_description := description;
     parser_arguments := []; parser_defaults := ∅ |}.

(** [module_parser.set_defaults(module=name)] *)
Definition set_defaults_module (name : string) (p : SubParser) : SubParser :=
  {| parser_name := parser_name p; parser_help := parser_help p;
     parser_description := parser_description p;
     parser_arguments := parser_arguments p;
     parser_defaults := <["module" := PStr name]> (parser_defaults p) |}.

(** [x or " "] on a string. *)
Definition or_blank (x : string) : string :=
  if String.eqb x "" then " " else x.

(** [s.splitlines()[0]] on a [str] that is not empty: up to the first
    line feed or carriage return. *)
Fixpoint first_line (s : string) : string :=
  match s with
  | EmptyString => EmptyString
  | String c r =>
      if Ascii.eqb c (ascii_of_nat 10) || Ascii.eqb c (ascii_of_nat 13)
      then EmptyString else String c (first_line r)
  end.

(** [cmp] on two [str]: byte by byte. *)
Definition str_le (a b : string) : bool := String.leb a b.

Section WithSession.

Variable Session : Type.

(** A command class, as the controller reads it. *)
Record Command : Type := mkCommand {
  name : string;
  is_active : Session → bool;
  _interactive : bool;
  __doc__ : option string;
  args : SubParser → SubParser
}.

(** Lines 280 to 284. *)
Definition kept (user_session : Session) (cls : Command) : bool :=
  negb (String.eqb (name cls) "") && is_active cls user_session
  && negb (_interactive cls).

Definition classes (user_session : Session) (catalogue : list Command)
    : list Command :=
  List.filter (kept user_session) catalogue.

(** [sorted(classes, key=lambda x: x.name)]: ascending by name, classes
    of one name in the order they came (the sort is stable). *)
Fixpoint insert_by_name (x : Command) (l : list Command) : list Command :=
  match l with
  | [] => [x]
  | y :: r =>
      if str_le (name x) (name y) then x :: y :: r
      else y :: insert_by_name x r
  end.

Fixpoint sorted (l : list Command) : list Command :=
  match l with
  | [] => []
  | x :: r => insert_by_name x (sorted r)
  end.

(** What the loop of lines 286 to 297 builds: the dictionary [parsers],
    the parsers added to [subparsers] in the order of their creation,
    and the classes whose [args] was called, in the order of the
    calls. *)
Record Built : Type := mkBuilt {
  parsers : gmap string SubParser;
  subparsers : list SubParser;
  declared : list Command
}.

Definition nothing_built : Built :=
  {| parsers := ∅; subparsers := []; declared := [] |}.

(** Lines 293 to 297 for one class: the parser object is created, filled
    by [cls.args] and by [set_defaults]; [parsers] and [subparsers] hold
    the same object. *)
Definition module_parser_of (cls : Command) : SubParser :=
  let docstring :=
    match __doc__ cls with
    | Some d => or_blank d
    | None => " "
    end in
  let doc := or_blank (first_line docstring) in
  set_defaults_module (name cls)
    (args cls (add_parser (name cls) doc docstring)).

(** One turn of the loop: lines 287 to 297. *)
Definition add_module_parser (cls : Command) (b : Built) : Built :=
  match parsers b !! name cls with
  | Some _ => b
  | None =>
      let module_parser := module_parser_of cls in
      {| parsers := <[name cls := module_parser]> (parsers b);
         subparsers := subparsers b ++ [module_parser];
         declared := declared b ++ [cls] |}
  end.

Fixpoint add_module_parsers (l : list Command) (b : Built) : Built :=
  match l with
  | [] => b
  | cls :: r => add_module_parsers r (add_module_parser cls b)
  end.

(** Lines 277 to 297 of [parse_args]. *)
Definition parse_args_subparsers (user_session : Session)
    (catalogue : list Command) : Built :=
  add_module_parsers (sorted (classes user_session catalogue)) nothing_built.

(** The first class of a name in a list. *)
Definition first_named (n : string) (l : list Command) : option Command :=
  List.find (λ c, String.eqb (name c) n) l.

(** Reading [l] from the left, the classes whose name was not seen
    before. *)
Fixpoint firsts (seen : list string) (l : list Command) : list Command :=
  match l with
  | [] => []
  | cls :: r =>
      if existsb (String.eqb (name cls)) seen then firsts seen r
      else cls :: firsts (name cls :: seen) r
  end.

(** Ascending by name. *)
Definition ascending (l : list Command) : Prop :=
  StronglySorted (λ x y, str_le (name x) (name y) = true) l.

(** What line 282 asks of a class of the catalogue. *)
Definition is_kept (user_session : Session) (catalogue : list Command)
    (cls : Command) : Prop :=
  In cls catalogue ∧ name cls ≠ "" ∧ is_active cls user_session = true
  ∧ _interactive cls = false.

End WithSession.

Arguments name {Session} c.
Arguments is_active {Session} c.
Arguments _interactive {Session} c.
Arguments __doc__ {Session} c.
Arguments args {Session} c.
Arguments kept {Session} user_session cls.
Arguments classes {Session} user_session catalogue.
Arguments insert_by_name {Session} x l.
Arguments sorted {Session} l.
Arguments parsers {Session} b.
Arguments subparsers {Session} b.
Arguments declared {Session} b.
Arguments nothing_built {Session}.
Arguments module_parser_of {Session} cls.
Arguments add_module_parser {Session} cls b.
Arguments add_module_parsers {Session} l b.
Arguments parse_args_subparsers {Session} user_session catalogue.
Arguments first_named {Session} n l.
Arguments firsts {Session} seen l.
Arguments ascending {Session} l.
Arguments is_kept {Session} user_session catalogue cls.

End Phase2.

(** ** The bundle loader: [LoadPlugins] *)

Module OsPath.

(** [s] cut at the last [sep]: what is before it and what is after. *)
Fixpoint rpartition (sep : ascii) (s : string) : option (string * string) :=
  match s with
  | EmptyString => None
  | String c r =>
      match rpartition sep r with
      | Some (h, t) => Some (String c h, t)
      | None => if Ascii.eqb c sep then Some (EmptyString, r) else None
      end
  end.

Fixpoint all_char (c : ascii) (s : string) : bool :=
  match s with
  | EmptyString => true
  | String a r => Ascii.eqb a c && all_char c r
  end.

(** [s.rstrip(c)] *)
Fixpoint rstrip (c : ascii) (s : string) : string :=
  match s with
  | EmptyString => EmptyString
  | String a r =>
      let r' := rstrip c r in
      if Ascii.eqb a c && String.eqb r' "" then EmptyString else String a r'
  end.

(** [posixpath.split] *)
Definition split (p : string) : string * string :=
  match rpartition "/" p with
  | None => (EmptyString, p)
  | Some (h, tail) =>
      let head := h +:+ "/" in
      (if all_char "/" head then head else rstrip "/" head, tail)
  end.

(** [posixpath.splitext]: the extension starts at the last dot of the last
    component, unless only dots come before it there. *)
Definition splitext (p : string) : string * string :=
  let '(dir, base) :=
    match rpartition "/" p with
    | None => (EmptyString, p)
    | Some (h, t) => (h +:+ "/", t)
    end in
  match rpartition "." base with
  | None => (p, EmptyString)
  | Some (root, e) =>
      if all_char "." root then (p, EmptyString)
      else (dir +:+ root, String "." e)
  end.

End OsPath.

Module Loader.

Definition PYTHON_EXTENSIONS : list string := [".py"; ".pyo"; ".pyc"].

(** [x in l] on strings. *)
Definition elem (x : string) (l : list string) : bool :=
  existsb (String.eqb x) l.

(** [s.replace(a, b)] on single characters. *)
Fixpoint replace (a b : ascii) (s : string) : string :=
  match s with
  | EmptyString => EmptyString
  | String c r => String (if Ascii.eqb c a then b else c) (replace a b r)
  end.

Definition is_slash (c : ascii) : bool := Ascii.eqb c "\" || Ascii.eqb c "/".

Fixpoint lstrip_slashes (s : string) : string :=
  match s with
  | String c r => if is_slash c then lstrip_slashes r else s
  | EmptyString => EmptyString
  end.

Fixpoint rstrip_slashes (s : string) : string :=
  match s with
  | EmptyString => EmptyString
  | String a r =>
      let r' := rstrip_slashes r in
      if is_slash a && String.eqb r' "" then EmptyString else String a r'
  end.

(** The [strip] of line 221: both ends lose their slashes and
    backslashes. *)
Definition strip_slashes (s : string) : string :=
  rstrip_slashes (lstrip_slashes s).

Inductive log_record : Type :=
| LogInfo (message : string)
| LogError (message : string).

(** What an import raises: [derives_exception] tells whether [except
    Exception] catches it ([SystemExit] and [KeyboardInterrupt] do not
    derive from [Exception]). *)
Inductive raised : Type :=
| Raised (derives_exception : bool) (message : string).

(** What leaves [LoadPlugins] as an exception. *)
Inductive exn : Type :=
| Uncaught (message : string)
| ZipFileError (path : string)
| IndexError.

(** The operations on the import search path and the import attempts, in
    the order they happen; an attempt is recorded with the search path it
    ran under. *)
Inductive event : Type :=
| Insert (location : string)
| Import (module_name : string) (search_path : list string)
| Pop.

(** The modules that the entries of an archive name: lines 215 to 221. *)
Fixpoint entry_modules (names : list string) : list string :=
  match names with
  | [] => []
  | name :: rest =>
      let '(module_name, ext) := OsPath.splitext name in
      if elem ext PYTHON_EXTENSIONS
      then strip_slashes (replace "\" "." (replace "/" "." module_name))
           :: entry_modules rest
      else entry_modules rest
  end.

Section WithEnvironment.

(** What imported code can change besides the search path: the loaded
    modules, the command catalogue. *)
Variable Env : Type.

(** [os.access(path, os.R_OK)] *)
Variable access : string → bool.
(** [os.path.abspath] *)
Variable abspath : string → string.
(** [zipfile.ZipFile(path)] and its [namelist()]; [None] when the
    constructor raises. *)
Variable ZipFile : string → option (list string).
(** [__import__(name)] under a search path and an environment: the
    search path and the environment it leaves, and what it raised. *)
Variable __import__ :
  string → list string → Env → list string * Env * option raised.

Record world : Type := mkWorld {
  sys_path : list string;
  env : Env;
  log : list log_record;
  trace : list event
}.

Definition logging (r : log_record) (w : world) : world :=
  {| sys_path := sys_path w; env := env w; log := log w ++ [r];
     trace := trace w |}.

(** [sys.path.insert(0, location)] *)
Definition insert0 (location : string) (w : world) : world :=
  {| sys_path := location :: sys_path w; env := env w; log := log w;
     trace := trace w ++ [Insert location] |}.

(** [sys.path.pop(0)]; [IndexError] on an empty list. *)
Definition pop0 (w : world) : world * option exn :=
  match sys_path w with
  | [] => (w, Some IndexError)
  | _ :: rest =>
      ({| sys_path := rest; env := env w; log := log w;
          trace := trace w ++ [Pop] |}, None)
  end.

Definition attempt (module_name : string) (w : world) : world * option raised :=
  let '(path', env', r) := __import__ module_name (sys_path w) (env w) in
  ({| sys_path := path'; env := env'; log := log w;
      trace := trace w ++ [Import module_name (sys_path w)] |}, r).

(** [try: __import__(name)] with [except Exception] logging the error:
    lines 198 to 202 and 220 to 224. *)
Definition try_import (path module_name : string) (w : world)
    : world * option exn :=
  let '(w, r) := attempt module_name w in
  match r with
  | None => (w, None)
  | Some (Raised true e) =>
      (logging (LogError ("Error loading user plugin " +:+ path +:+ ": " +:+ e)) w,
       None)
  | Some (Raised false e) => (w, Some (Uncaught e))
  end.

(** The [finally] clause of lines 203 and 226: the pop runs whatever the
    body did; what the body raised goes on unless the pop itself
    raises. *)
Definition finally_pop (body : world * option exn) : world * option exn :=
  let '(w, pending) := body in
  let '(w, e) := pop0 w in
  (w, match e with Some e => Some e | None => pending end).

(** Lines 194 to 204. *)
Definition load_file (path directory module_name : string) (w : world)
    : world * option exn :=
  let w := insert0 directory w in
  finally_pop
    (try_import path module_name
       (logging (LogInfo ("Loading user plugin " +:+ path)) w)).

(** Lines 213 to 224. *)
Fixpoint load_entries (path : string) (names : list string) (w : world)
    : world * option exn :=
  match names with
  | [] => (w, None)
  | name :: rest =>
      let '(module_name, ext) := OsPath.splitext name in
      if elem ext PYTHON_EXTENSIONS then
        let module_name := replace "\" "." (replace "/" "." module_name) in
        match try_import path (strip_slashes module_name) w with
        | (w, None) => load_entries path rest w
        | (w, Some e) => (w, Some e)
        end
      else load_entries path rest w
  end.

(** Lines 206 to 227. *)
Definition load_archive (path : string) (w : world) : world * option exn :=
  match ZipFile path with
  | None => (w, Some (ZipFileError path))
  | Some names =>
      let w := insert0 path w in
      finally_pop
        (load_entries path names
           (logging (LogInfo ("Loading user plugin archive " +:+ path)) w))
  end.

(** The body of the loop of line 184. *)
Definition load_path (path : string) (w : world) : world * option exn :=
  if negb (access path) then
    (logging (LogError ("Unable to find " +:+ path)) w, None)
  else
    let path := abspath path in
    let '(directory, filename) := OsPath.split path in
    let '(module_name, ext) := OsPath.splitext filename in
    if elem ext PYTHON_EXTENSIONS then load_file path directory module_name w
    else if String.eqb ext ".zip" then load_archive path w
    else
      (logging (LogError ("Plugin " +:+ path +:+ " has incorrect extension.")) w,
       None).

Fixpoint LoadPlugins (paths : list string) (w : world) : world * option exn :=
  match paths with
  | [] => (w, None)
  | path :: rest =>
      match load_path path w with
      | (w, None) => LoadPlugins rest w
      | (w, Some e) => (w, Some e)
      end
  end.

(** The modules [load_path] sets out to import for a path: none for an
    unreadable path or an unknown extension, the module of a file, the
    modules of the entries of an archive. *)
Definition path_modules (path : string) : list string :=
  if negb (access path) then []
  else
    let path := abspath path in
    let '(directory, filename) := OsPath.split path in
    let '(module_name, ext) := OsPath.splitext filename in
    if elem ext PYTHON_EXTENSIONS then [module_name]
    else if String.eqb ext ".zip" then
      match ZipFile path with
      | Some names => entry_modules names
      | None => []
      end
    else [].

End WithEnvironment.




(** The modules attempted, in order. *)
Fixpoint attempted (t : list event) : list string :=
  match t with
  | [] => []
  | Import m _ :: r => m :: attempted r
  | _ :: r => attempted r
  end.


(** A loader run used in the examples: every path is readable and already
    absolute; [bundle.zip] holds two modules and a text file, [bad.zip] is
    not an archive; importing [bad] raises an [Exception], every other
    import succeeds; imported code leaves the search path alone. *)
Definition example_ZipFile (path : string) : option (list string) :=
  if String.eqb path "/plugins/bundle.zip"
  then Some ["pkg/a.py"; "README.txt"; "b.pyc"]
  else None.

Definition example_import (module_name : string) (search_path : list string)
    (e : unit) : list string * unit * option raised :=
  (search_path, e,
   if String.eqb module_name "bad" then Some (Raised true "boom") else None).

Definition example_world : world unit :=
  {| sys_path := ["/usr/lib/python2.7"]; env := tt; log := []; trace := [] |}.

Definition example_LoadPlugins (paths : list string) : world unit * option exn :=
  LoadPlugins unit (λ _, true) (λ p, p) example_ZipFile example_import
    paths example_world.

(** A run in which every archive opens: each holds a module in a package
    and a module at its top. *)
Definition example_archives (path : string) : option (list string) :=
  Some ["pkg/a.py"; "b.pyc"].

End Loader.

(** ** [ArrayStringParser] *)

Module ArrayStringParser.

(** The loop of lines 111 and 112 over [values], extending [result]. *)
Fixpoint extend_all (values : list string) (result : list string) : list string :=
  match values with
  | [] => result
  | value :: r => extend_all r (result ++ Py.split "," value)
  end.

(** The list that [__call__] stores: lines 107 to 112. *)
Definition parse_list (values : ArrayIntParser.tokens) : list string :=
  extend_all (ArrayIntParser.as_list values) [].

(** Line 114. *)
Definition call (dest : string) (namespace : gmap string pyobj)
    (values : ArrayIntParser.tokens) : gmap string pyobj :=
  <[dest := PList (PStr <$> parse_list values)]> namespace.

End ArrayStringParser.

(** ** [MockArgParser] *)

Module MockArgParser.

(** [getattr(namespace, key)] on a missing attribute. *)
Inductive exn : Type :=
| AttributeError (key : string).

Fixpoint lstrip_dashes (s : string) : string :=
  match s with
  | String c r => if Ascii.eqb c "-" then lstrip_dashes r else s
  | EmptyString => EmptyString
  end.

(** [flag.strip("-")] *)
Definition strip_dashes (s : string) : string :=
  OsPath.rstrip "-" (lstrip_dashes s).

(** Lines 119 to 126; [dest] is tested for its truth value. *)
Definition flag_of (short_flag long_flag dest : string) : string :=
  if Py.startswith short_flag "--" then short_flag
  else if Py.startswith long_flag "--" then long_flag
  else if negb (String.eqb dest "") then dest
  else short_flag.

(** Line 130. *)
Definition arg_name (short_flag long_flag dest : string) : string :=
  Loader.replace "-" "_" (strip_dashes (flag_of short_flag long_flag dest)).

(** Lines 118 to 132 on [self.args]. *)
Definition add_argument (short_flag long_flag dest : string)
    (args : gmap string pyobj) : gmap string pyobj :=
  <[arg_name short_flag long_flag dest := PNone]> args.

(** [cls.args(self)], as the [add_argument] calls it makes, in order, each
    with its [short_flag], [long_flag] and [dest]. *)
Definition declare (calls : list (string * string * string))
    (args : gmap string pyobj) : gmap string pyobj :=
  foldl (λ args '(short_flag, long_flag, dest),
           add_argument short_flag long_flag dest args) args calls.

(** The loop of lines 141 and 142 over the keys of [self.args]. *)
Fixpoint fill (keys : list string) (namespace args : gmap string pyobj)
    : res exn (gmap string pyobj) :=
  match keys with
  | [] => Ok args
  | key :: r =>
      match namespace !! key with
      | Some v => fill r namespace (<[key := v]> args)
      | None => Raise (AttributeError key)
      end
  end.

(** Lines 134 to 144. *)
Definition build_args_dict (calls : list (string * string * string))
    (namespace : gmap string pyobj) : res exn (gmap string pyobj) :=
  let args := declare calls ∅ in
  fill (map fst (map_to_list args)) namespace args.

(** The names a class declares. *)
Definition arg_names (calls : list (string * string * string)) : list string :=
  map (λ '(short_flag, long_flag, dest), arg_name short_flag long_flag dest) calls.

End MockArgParser.

(** ** The characters of an integer literal *)

Module IntLiteral.

(** A character that [int(s, base)] can read: white space, a sign, the [x]
    of the radix prefix or a digit of the base. *)
Definition allowed (base : Z) (c : ascii) : bool :=
  Py.isspace c || bool_decide (is_Some (Py.digit_in base c))
  || Ascii.eqb c "+" || Ascii.eqb c "-" || Ascii.eqb c "x" || Ascii.eqb c "X".

Fixpoint all_allowed (base : Z) (s : string) : bool :=
  match s with
  | EmptyString => true
  | String c r => allowed base c && all_allowed base r
  end.

(** [c in s] *)
Fixpoint contains (c : ascii) (s : string) : bool :=
  match s with
  | EmptyString => false
  | String a r => Ascii.eqb a c || contains c r
  end.

End IntLiteral.

(** * Properties *)

Ltac res_simpl := cbn [mbind mret res_mbind res_mret res_bind].

(** ** [IntParser.parse_int] *)

Module IntParserProps.
Import IntParser.

Lemma append_empty s : s +:+ "" = s.
Proof.
  induction s as [|c r IH]; [reflexivity|].
  change (String c r +:+ "") with (String c (r +:+ "")). now rewrite IH.
Qed.

Lemma parse_int_unfold value :
  parse_int value =
    match search value with
    | Some (g1, g2) => convert g1 (multiplier_of (Py.lower g2))
    | None => convert value 1
    end.
Proof.
  unfold parse_int, convert. destruct (search value) as [[g1 g2]|]; reflexivity.
Qed.

Lemma alternation_head c r g2 :
  alternation (String c r) = Some g2 → c = "m"%char ∨ c = "k"%char.
Proof.
  unfold alternation. cbn [Py.startswith].
  destruct (Ascii.eqb_spec "m" c) as [<-|Hm]; [now left|].
  destruct (Ascii.eqb_spec "k" c) as [<-|Hk]; [now right|].
  discriminate.
Qed.

Lemma match_here_none s : no_suffix_char s = true → match_here s = None.
Proof.
  induction s as [|c r IH]; simpl; [reflexivity|].
  intros H. apply andb_prop in H as [H Hr]. apply andb_prop in H as [Hm Hk].
  rewrite (IH Hr). destruct (Ascii.eqb c newline).
  all: destruct (alternation (String c r)) as [g2|] eqn:Ha; [|reflexivity].
  all: apply alternation_head in Ha as [->| ->]; discriminate.
Qed.

Lemma search_none s : no_suffix_char s = true → search s = None.
Proof.
  induction s as [|c r IH]; [reflexivity|].
  intros H. cbn [search]. rewrite (match_here_none _ H).
  simpl in H. apply andb_prop in H as [_ Hr]. auto.
Qed.

(** At a suffix followed by no further suffix character the group stays
    empty and the alternation gives a suffix of the same multiplier. *)
Lemma match_here_suffix suf rest :
  In suf suffixes → no_suffix_char rest = true →
  ∃ g2, match_here (suf +:+ rest) = Some (EmptyString, g2)
        ∧ multiplier_of (Py.lower g2) = multiplier_of suf.
Proof.
  intros Hin Hrest.
  assert (Hb : match_here (String "b" rest) = None)
    by (apply match_here_none; simpl; now rewrite Hrest).
  pose proof (match_here_none _ Hrest) as Hr.
  simpl in Hin. destruct Hin as [<-|[<-|[<-|[<-|[]]]]].
  - exists "mb". change ("mb" +:+ rest) with (String "m" (String "b" rest)).
    cbn [match_here]. rewrite Hr. now vm_compute.
  - exists "kb". change ("kb" +:+ rest) with (String "k" (String "b" rest)).
    cbn [match_here]. rewrite Hr. now vm_compute.
  - change ("m" +:+ rest) with (String "m" rest).
    cbn [match_here]. rewrite Hr.
    destruct rest as [|c r]; [exists "m"; now vm_compute|].
    destruct (Ascii.eqb_spec "b" c) as [<-|Hc].
    + exists "mb". now vm_compute.
    + exists "m". split; [|reflexivity].
      unfold alternation. cbn [Py.startswith].
      destruct (Ascii.eqb_spec "b" c); [congruence|]. reflexivity.
  - change ("k" +:+ rest) with (String "k" rest).
    cbn [match_here]. rewrite Hr.
    destruct rest as [|c r]; [exists "k"; now vm_compute|].
    destruct (Ascii.eqb_spec "b" c) as [<-|Hc].
    + exists "kb". now vm_compute.
    + exists "k". split; [|reflexivity].
      unfold alternation. cbn [Py.startswith].
      destruct (Ascii.eqb_spec "b" c); [congruence|]. reflexivity.
Qed.

Lemma match_here_last pre suf rest :
  In suf suffixes → no_suffix_char rest = true → no_newline pre = true →
  ∃ g2, match_here (pre +:+ suf +:+ rest) = Some (pre, g2)
        ∧ multiplier_of (Py.lower g2) = multiplier_of suf.
Proof.
  intros Hin Hrest. induction pre as [|c p IH]; intros Hpre.
  - exact (match_here_suffix suf rest Hin Hrest).
  - simpl in Hpre. apply andb_prop in Hpre as [Hc Hp].
    destruct (IH Hp) as (g2 & Hm & Hmul). exists g2. split; [|exact Hmul].
    change (String c p +:+ suf +:+ rest) with (String c (p +:+ suf +:+ rest)).
    cbn [match_here]. apply negb_true_iff in Hc. now rewrite Hc, Hm.
Qed.

Lemma search_last pre suf rest :
  In suf suffixes → no_suffix_char rest = true → no_newline pre = true →
  ∃ g2, search (pre +:+ suf +:+ rest) = Some (pre, g2)
        ∧ multiplier_of (Py.lower g2) = multiplier_of suf.
Proof.
  intros Hin Hrest Hpre.
  destruct (match_here_last pre suf rest Hin Hrest Hpre) as (g2 & Hm & Hmul).
  exists g2. split; [|exact Hmul].
  destruct (pre +:+ suf +:+ rest); cbn [search]; now rewrite Hm.
Qed.

Lemma parse_int_last pre suf rest :
  In suf suffixes → no_suffix_char rest = true → no_newline pre = true →
  parse_int (pre +:+ suf +:+ rest) = convert pre (multiplier_of suf).
Proof.
  intros Hin Hrest Hpre.
  destruct (search_last pre suf rest Hin Hrest Hpre) as (g2 & Hs & Hmul).
  now rewrite parse_int_unfold, Hs, Hmul.
Qed.

(** Without a lower-case [m] or [k] no suffix is recognised: the whole
    token goes to the numeric conversion. *)
Lemma parse_int_without_suffix token :
  no_suffix_char token = true → parse_int token = convert token 1.
Proof.
  intros H. now rewrite parse_int_unfold, (search_none _ H).
Qed.

(** C3: [parse_int] returns 16 for "0x10", 4096 for "4k" and 1048576 for
    "1mb", and raises the argument error, instead of returning, for
    "abc". *)
Theorem parse_int_examples :
  parse_int "0x10" = Ok 16
  ∧ parse_int "4k" = Ok 4096
  ∧ parse_int "1mb" = Ok 1048576
  ∧ parse_int "abc" = Raise (ArgumentError "Invalid integer value").
Proof. repeat split; reflexivity. Qed.

(** C2, at the inputs where the code departs from it: the pattern of line
    59 is matched case-sensitively, so "4K" and "1MB" carry no recognised
    suffix, go whole to [int] and raise, while "4k" and "1mb" give 4096 and
    1048576. *)
Theorem parse_int_upper_case_suffix :
  parse_int "4K" = Raise (ArgumentError "Invalid integer value")
  ∧ parse_int "1MB" = Raise (ArgumentError "Invalid integer value")
  ∧ parse_int "1Kb" = Raise (ArgumentError "Invalid integer value")
  ∧ search "4K" = None ∧ search "1MB" = None
  ∧ parse_int "4k" = Ok 4096
  ∧ parse_int "1mb" = Ok 1048576.
Proof. repeat split; reflexivity. Qed.

(** C10 as stated fails: in "xk2" the suffix [k] stands before the end of
    the token, and [parse_int] reports an error, because what stands
    before the suffix is not a number. *)
Lemma parse_int_suffix_inside_raises :
  "xk2" = "x" +:+ "k" +:+ "2" ∧ In "k" suffixes
  ∧ parse_int "xk2" = Raise (ArgumentError "Invalid integer value").
Proof. split; [reflexivity | split; [simpl; tauto | reflexivity]]. Qed.

(** C10, amended: when a token is [pre ++ suf ++ rest], with [suf] one of
    mb, kb, m, k, no further lower-case m or k in [rest] and no line feed
    in [pre], [parse_int] converts [pre] alone (hexadecimal after 0x,
    decimal otherwise), applies the multiplier of [suf] and discards
    [rest]: the characters after the suffix never cause an error, and one
    is reported exactly when [pre] is not a number. *)
Theorem parse_int_discards_after_suffix pre suf rest :
  In suf suffixes → no_suffix_char rest = true → no_newline pre = true →
  parse_int (pre +:+ suf +:+ rest) = parse_int (pre +:+ suf)
  ∧ parse_int (pre +:+ suf +:+ rest) = convert pre (multiplier_of suf)
  ∧ (∀ n, Py.int pre (if Py.startswith pre "0x" then 16 else 10) = Some n →
          parse_int (pre +:+ suf +:+ rest) = Ok (n * multiplier_of suf))
  ∧ (Py.int pre (if Py.startswith pre "0x" then 16 else 10) = None →
     parse_int (pre +:+ suf +:+ rest) = Raise (ArgumentError "Invalid integer value")).
Proof.
  intros Hin Hrest Hpre.
  pose proof (parse_int_last pre suf rest Hin Hrest Hpre) as H.
  pose proof (parse_int_last pre suf "" Hin eq_refl Hpre) as H0.
  rewrite append_empty in H0. rewrite H, H0. unfold convert.
  repeat split.
  - intros n Hn. destruct (Py.startswith pre "0x"); now rewrite Hn.
  - intros Hn. destruct (Py.startswith pre "0x"); now rewrite Hn.
Qed.

Lemma parse_int_discards_after_suffix_witness :
  parse_int "1k2" = parse_int "1k" ∧ parse_int "1k2" = Ok 1024.
Proof.
  destruct (parse_int_discards_after_suffix "1" "k" "2") as (H1 & H2 & _).
  - simpl; tauto.
  - reflexivity.
  - reflexivity.
  - split; [exact H1 | exact H2].
Defined.

End IntParserProps.

(** ** [ArrayIntParser] *)

Module ArrayIntParserProps.
Import IntParser ArrayIntParser.

Lemma split_comma_free x : comma_free x = true → Py.split "," x = [x].
Proof.
  induction x as [|c r IH]; [reflexivity|].
  simpl. intros H. apply andb_prop in H as [Hc Hr].
  apply negb_true_iff in Hc. rewrite Hc, (IH Hr). reflexivity.
Qed.

Lemma split_cons_sep x s :
  comma_free x = true → Py.split "," (x +:+ String "," s) = x :: Py.split "," s.
Proof.
  induction x as [|c r IH]; [reflexivity|].
  simpl. intros H. apply andb_prop in H as [Hc Hr].
  apply negb_true_iff in Hc.
  change (String c r +:+ String "," s) with (String c (r +:+ String "," s)).
  cbn [Py.split]. rewrite Hc, (IH Hr). reflexivity.
Qed.

Lemma split_join xs : well_formed_group xs → Py.split "," (Py.join "," xs) = xs.
Proof.
  intros [Hne Hall]. induction Hall as [|x r Hx Hr IH]; [congruence|].
  destruct r as [|y r'].
  - simpl. now apply split_comma_free.
  - change (Py.join "," (x :: y :: r'))
      with (x +:+ String "," (Py.join "," (y :: r'))).
    rewrite (split_cons_sep _ _ Hx). f_equal. now apply IH.
Qed.

Lemma comprehension_app a b :
  comprehension (a ++ b) =
    (na ← comprehension a; nb ← comprehension b; Ok (na ++ nb)).
Proof.
  induction a as [|x a IH]; cbn [app comprehension].
  - destruct (comprehension b); reflexivity.
  - rewrite IH. destruct (parse_int x) as [n|e]; [|reflexivity].
    destruct (comprehension a) as [na|e]; [|reflexivity].
    destruct (comprehension b); reflexivity.
Qed.

Lemma extend_all_flat values result :
  extend_all values result =
    (ns ← comprehension (concat (Py.split "," <$> values)); Ok (result ++ ns)).
Proof.
  revert result. induction values as [|v r IH]; intros result.
  - simpl. now rewrite app_nil_r.
  - cbn [extend_all fmap list_fmap concat]. rewrite comprehension_app.
    destruct (comprehension (Py.split "," v)) as [ns|e]; [|reflexivity].
    res_simpl. rewrite IH.
    destruct (comprehension (concat (Py.split "," <$> r))) as [ms|e];
      [|reflexivity].
    res_simpl. now rewrite app_assoc.
Qed.

Lemma parse_list_flat values :
  parse_list (Several values) = comprehension (concat (Py.split "," <$> values)).
Proof.
  unfold parse_list. simpl. rewrite extend_all_flat.
  destruct (comprehension _); reflexivity.
Qed.

Lemma comprehension_each xs ns :
  comprehension xs = Ok ns → Forall2 (λ x n, parse_int x = Ok n) xs ns.
Proof.
  revert ns. induction xs as [|x r IH]; intros ns; simpl.
  - intros [= <-]. constructor.
  - destruct (parse_int x) as [n|] eqn:Hx; simpl; [|discriminate].
    destruct (comprehension r) as [ms|]; simpl; [|discriminate].
    intros [= <-]. constructor; auto.
Qed.

Lemma concat_split_joined (groups : list (list string)) :
  Forall well_formed_group groups →
  concat (Py.split "," <$> (Py.join "," <$> groups)) = concat groups.
Proof.
  induction 1 as [|xs r Hxs _ IH]; [reflexivity|].
  rewrite !fmap_cons. cbn [concat]. now rewrite (split_join _ Hxs), IH.
Qed.

Lemma concat_split_separate (groups : list (list string)) :
  Forall well_formed_group groups →
  concat (Py.split "," <$> concat groups) = concat groups.
Proof.
  induction 1 as [|xs r [_ Hxs] _ IH]; [reflexivity|].
  cbn [concat]. rewrite fmap_app, concat_app, IH. f_equal.
  clear -Hxs. induction Hxs as [|x l Hx _ IHl]; [reflexivity|].
  rewrite fmap_cons. cbn [concat]. now rewrite (split_comma_free _ Hx), IHl.
Qed.

(** C4: a token holding comma-separated sub-tokens and the same
    sub-tokens as separate tokens give the same list, also when the two
    forms are mixed in one token list; the list holds the [parse_int] of
    each sub-token, in the order of the sub-tokens; no token gives the
    empty list. *)
Theorem ArrayIntParser_forms (groups : list (list string)) (values : list string) :
  Forall well_formed_group groups →
  parse_list (Several ["1,2,3"]) = Ok [1; 2; 3]
  ∧ parse_list (Several ["1"; "2"; "3"]) = Ok [1; 2; 3]
  ∧ parse_list (Several (Py.join "," <$> groups)) = parse_list (Several (concat groups))
  ∧ parse_list (Several [Py.join "," (concat groups)]) = parse_list (Single (Py.join "," (concat groups)))
  ∧ parse_list (Several (concat groups)) = comprehension (concat groups)
  ∧ (∀ ns, parse_list (Several values) = Ok ns →
       Forall2 (λ x n, parse_int x = Ok n) (concat (Py.split "," <$> values)) ns)
  ∧ parse_list (Several []) = Ok [].
Proof.
  intros Hgroups. repeat split; try reflexivity.
  - now rewrite !parse_list_flat, concat_split_joined, concat_split_separate.
  - now rewrite parse_list_flat, concat_split_separate.
  - intros ns. rewrite parse_list_flat. apply comprehension_each.
Qed.

Lemma ArrayIntParser_forms_witness :
  parse_list (Several ["1,2"; "0x3"; "4k,5"])
  = parse_list (Several ["1"; "2"; "0x3"; "4k"; "5"])
  ∧ parse_list (Several ["1"; "2"; "0x3"; "4k"; "5"]) = Ok [1; 2; 3; 4096; 5].
Proof.
  destruct (ArrayIntParser_forms [["1"; "2"]; ["0x3"]; ["4k"; "5"]] [])
    as (_ & _ & H & _ & H' & _).
  - repeat constructor; discriminate.
  - split; [exact H | exact H'].
Defined.

End ArrayIntParserProps.

(** ** [RekallArgParser.error] *)

Module RekallArgParserProps.
Import RekallArgParser.

(** C1 as stated fails: in strict mode the failure "too few arguments" is
    swallowed, the handler returns without raising. *)
Lemma error_too_few_arguments_strict :
  ignore_errors strict_parser = false
  ∧ error strict_parser "too few arguments" = ([], Ok tt)
  ∧ swallowed (error strict_parser "too few arguments") = true.
Proof. repeat split. Qed.

(** C1, amended: the handler swallows a failure exactly when the parser
    is in the tolerant mode or the message is "too few arguments"; that
    message is swallowed in both modes, and in strict mode every other
    message ends in [SystemExit] with status 2. *)
Theorem error_swallowed (self : RekallArgParser.t) (message : string) :
  swallowed (error self "too few arguments") = true
  ∧ swallowed (error self message)
    = ignore_errors self || String.eqb message "too few arguments"
  ∧ (error self message).2
    = if ignore_errors self || String.eqb message "too few arguments"
      then Ok tt else Raise (SystemExit 2).
Proof.
  unfold swallowed, error, ArgumentParser_error, exit, ArgumentParser_exit.
  destruct (ignore_errors self) eqn:Hmode; cbn [String.eqb orb fst snd].
  - repeat split.
  - replace (String.eqb "too few arguments" "too few arguments") with true
      by reflexivity.
    destruct (String.eqb message "too few arguments"); repeat split.
Qed.

End RekallArgParserProps.

(** ** The session state after phase 1 *)

Section Phase1Props.

Variable MergeConfigOptions : gmap string pyobj → gmap string pyobj.

(** Writing every item of the namespace leaves the namespace laid over
    the state. *)
Lemma set_all_union (known_args state : gmap string pyobj) :
  set_all known_args state = known_args ∪ state.
Proof.
  unfold set_all.
  apply (map_fold_weak_ind (λ r m, r = m ∪ state)).
  - now rewrite (left_id_L ∅ (∪)).
  - intros i x m r Hi ->. unfold SessionState.Set_.
    now rewrite insert_union_l.
Qed.

Lemma set_all_lookup (known_args state : gmap string pyobj) arg :
  set_all known_args state !! arg =
    match known_args !! arg with
    | Some v => Some v
    | None => state !! arg
    end.
Proof.
  rewrite set_all_union, lookup_union.
  destruct (known_args !! arg), (state !! arg); reflexivity.
Qed.

(** C5: in the transaction of lines 241 to 245 the defaults are merged
    first and every item of the parsed namespace is written after, so the
    committed state shows the parsed value of every option the namespace
    holds, whatever the merge wrote for it; the other keys are as the
    merge left them. The same holds for the namespace parsed at line 235,
    but for [logging] when [verbose] forces it. *)
Theorem parsed_values_override_defaults
    (known_args state : gmap string pyobj) (arg : string) (v : pyobj) :
  known_args !! arg = Some v →
  merge_and_set MergeConfigOptions known_args state !! arg = Some v
  ∧ merge_and_set MergeConfigOptions known_args state
    = known_args ∪ MergeConfigOptions state
  ∧ (getattr_truthy known_args "verbose" = false ∨ arg ≠ "logging" →
     LoadProfileIntoSession_state MergeConfigOptions known_args state !! arg
     = Some v).
Proof.
  intros Harg.
  unfold LoadProfileIntoSession_state, merge_and_set, SessionState.transaction.
  repeat split.
  - now rewrite set_all_lookup, Harg.
  - apply set_all_union.
  - intros Hcase. rewrite set_all_lookup. unfold force_verbose.
    destruct (getattr_truthy known_args "verbose").
    + destruct Hcase as [|Hne]; [discriminate|].
      rewrite lookup_insert_ne by congruence. now rewrite Harg.
    + now rewrite Harg.
Qed.

End Phase1Props.

(** A registry merge that writes a default for [output], and a namespace
    that holds a parsed [output]. *)
Lemma parsed_values_override_defaults_witness :
  merge_and_set (λ state, <["output" := PNone]> state)
    {["output" := PStr "out.txt"]} ∅ !! "output" = Some (PStr "out.txt").
Proof.
  pose proof (parsed_values_override_defaults
                (λ state, <["output" := PNone]> state)
                {["output" := PStr "out.txt"]} ∅ "output" (PStr "out.txt")
                (lookup_singleton_eq "output" (PStr "out.txt"))) as H.
  exact (proj1 H).
Defined.

(** ** The sub-parsers of phase 2 *)

Module Phase2Props.
Import Phase2.


Lemma str_le_trans a b c :
  str_le a b = true → str_le b c = true → str_le a c = true.
Proof.
unfold str_le. intros Hab Hbc.
apply Is_true_true. apply Is_true_true in Hab, Hbc.
exact (transitivity (R := String.le) Hab Hbc).
Qed.

Lemma str_le_lt a b : str_le a b = true → a ≠ b → String.ltb a b = true.
Proof.
unfold str_le, String.leb, String.ltb. intros Hle Hne.
destruct (String.compare a b) eqn:Hc; try reflexivity; try discriminate.
apply String.compare_eq_iff in Hc. contradiction.
Qed.

Section WithSession.

Variable Session : Type.
Implicit Types (cls x y : Command Session) (l : list (Command Session)).

Lemma kept_true user_session cls :
  kept user_session cls = true ↔
  name cls ≠ "" ∧ is_active cls user_session = true ∧ _interactive cls = false.
Proof.
unfold kept. rewrite !andb_true_iff, !negb_true_iff.
split.
- intros [[Hn Ha] Hi]. repeat split; auto.
  intros Heq. rewrite Heq in Hn. discriminate.
- intros (Hn & Ha & Hi). repeat split; auto.
  destruct (String.eqb_spec (name cls) ""); congruence.
Qed.

(** *** The sort *)

Lemma insert_by_name_perm x l : Permutation (insert_by_name x l) (x :: l).
Proof.
induction l as [|y r IH]; simpl; [reflexivity|].
destruct (str_le (name x) (name y)); [reflexivity|].
rewrite IH. apply perm_swap.
Qed.

Lemma sorted_perm l : Permutation (sorted l) l.
Proof.
induction l as [|x r IH]; simpl; [reflexivity|].
rewrite insert_by_name_perm. now constructor.
Qed.

Lemma sorted_In l cls : In cls (sorted l) ↔ In cls l.
Proof.
split; apply Permutation_in; [|symmetry]; apply sorted_perm.
Qed.

Lemma insert_by_name_ascending x l :
  ascending l → ascending (insert_by_name x l).
Proof.
unfold ascending. induction 1 as [|y r Hr IH Hy]; simpl.
- repeat constructor.
- destruct (str_le (name x) (name y)) eqn:Hxy.
  + constructor; [now constructor|].
    constructor; [exact Hxy|].
    eapply Forall_impl; [exact Hy|].
    intros z Hz. simpl in Hz. now apply (str_le_trans _ (name y)).
  + constructor; [exact IH|].
    assert (Hyx : str_le (name y) (name x) = true).
    { unfold str_le in *.
      destruct (String.leb_total (name x) (name y)); congruence. }
    apply List.Forall_forall. intros z Hz.
    apply (Permutation_in _ (insert_by_name_perm x r)) in Hz.
    destruct Hz as [<-|Hz]; [exact Hyx|].
    rewrite List.Forall_forall in Hy. now apply Hy.
Qed.

Lemma sorted_ascending l : ascending (sorted l).
Proof.
induction l as [|x r IH]; simpl; [constructor|].
now apply insert_by_name_ascending.
Qed.





(** *** The loop *)

Lemma firsts_In seen l cls :
  In cls (firsts seen l) →
  In cls l ∧ existsb (String.eqb (name cls)) seen = false
  ∧ first_named (name cls) l = Some cls.
Proof.
revert seen. induction l as [|c0 r IH]; intros seen; [intros []|].
cbn [firsts]. destruct (existsb (String.eqb (name c0)) seen) eqn:He.
- intros Hin. destruct (IH _ Hin) as (Hr & Hs & Hf).
  repeat split; [now right | exact Hs |].
  unfold first_named. cbn [List.find].
  destruct (String.eqb_spec (name c0) (name cls)) as [Heq|_]; [|exact Hf].
  rewrite Heq in He. congruence.
- intros [<-|Hin].
  + repeat split; [now left | exact He |].
    unfold first_named. cbn [List.find]. now rewrite String.eqb_refl.
  + destruct (IH _ Hin) as (Hr & Hs & Hf). cbn [existsb] in Hs.
    apply orb_false_iff in Hs as [Hne Hs].
    repeat split; [now right | exact Hs |].
    unfold first_named. cbn [List.find].
    rewrite String.eqb_sym, Hne. exact Hf.
Qed.



(** The loop calls [args] on the first class of each name that [parsers]
    does not hold yet, and makes the parsers of these classes. *)
Lemma add_module_parsers_firsts l (b : Built Session) seen :
  (∀ n, parsers b !! n = None ↔ existsb (String.eqb n) seen = false) →
  declared (add_module_parsers l b) = declared b ++ firsts seen l
  ∧ subparsers (add_module_parsers l b)
    = subparsers b ++ map module_parser_of (firsts seen l).
Proof.
revert b seen. induction l as [|cls r IH]; intros b seen Hseen.
- cbn. now rewrite !app_nil_r.
- cbn [add_module_parsers firsts]. unfold add_module_parser.
  destruct (parsers b !! name cls) as [p|] eqn:Hp.
  + assert (He : existsb (String.eqb (name cls)) seen = true).
    { destruct (existsb (String.eqb (name cls)) seen) eqn:He; [reflexivity|].
      apply Hseen in He. congruence. }
    rewrite He. now apply IH.
  + rewrite (proj1 (Hseen _) Hp).
    destruct (IH {| parsers := <[name cls := module_parser_of cls]> (parsers b);
                    subparsers := subparsers b ++ [module_parser_of cls];
                    declared := declared b ++ [cls] |} (name cls :: seen))
      as [Hd Hs].
    { intros n. cbn [parsers existsb].
      rewrite lookup_insert_None, orb_false_iff, Hseen.
      split; intros [H1 H2]; split; auto.
      - destruct (String.eqb_spec n (name cls)); congruence.
      - intros Heq. rewrite Heq, String.eqb_refl in H1. discriminate. }
    cbn [declared subparsers] in Hd, Hs. rewrite Hd, Hs.
    cbn [map]. now rewrite <- !app_assoc.
Qed.

(** Under every name [parsers] ends with the parser it had or, when it had
    none, with the parser of the first class of that name. *)
Lemma add_module_parsers_lookup l (b : Built Session) n :
  parsers (add_module_parsers l b) !! n =
    match parsers b !! n with
    | Some p => Some p
    | None => module_parser_of <$> first_named n l
    end.
Proof.
revert b. induction l as [|cls r IH]; intros b.
- cbn. now destruct (parsers b !! n).
- cbn [add_module_parsers]. rewrite IH. unfold add_module_parser, first_named.
  cbn [List.find].
  destruct (parsers b !! name cls) as [p|] eqn:Hp.
  + destruct (parsers b !! n) as [q|] eqn:Hq; [reflexivity|].
    destruct (String.eqb_spec (name cls) n) as [Heq|_]; [congruence|reflexivity].
  + cbn [parsers].
    destruct (String.eqb_spec (name cls) n) as [<-|Hne].
    * now rewrite lookup_insert_eq, Hp.
    * now rewrite lookup_insert_ne.
Qed.

Lemma declared_firsts user_session (catalogue : list (Command Session)) :
  declared (parse_args_subparsers user_session catalogue)
  = firsts [] (sorted (classes user_session catalogue))
  ∧ subparsers (parse_args_subparsers user_session catalogue)
    = map module_parser_of (declared (parse_args_subparsers user_session catalogue)).
Proof.
unfold parse_args_subparsers.
destruct (add_module_parsers_firsts (sorted (classes user_session catalogue))
            nothing_built []) as [Hd Hs].
- intros n. cbn. now rewrite lookup_empty.
- cbn in Hd, Hs. rewrite Hs, Hd. split; reflexivity.
Qed.

Lemma classes_kept user_session (catalogue : list (Command Session)) :
  Forall (is_kept user_session catalogue) (classes user_session catalogue).
Proof.
apply List.Forall_forall. intros cls Hin.
unfold classes in Hin. apply filter_In in Hin as [Hin Hk].
apply kept_true in Hk. now split.
Qed.

Lemma declared_kept user_session (catalogue : list (Command Session)) :
  Forall (is_kept user_session catalogue)
    (declared (parse_args_subparsers user_session catalogue)).
Proof.
destruct (declared_firsts user_session catalogue) as [-> _].
apply List.Forall_forall. intros cls Hin.
apply firsts_In in Hin as (Hin & _).
apply (proj1 (sorted_In _ _)) in Hin.
pose proof (classes_kept user_session catalogue) as Hk.
rewrite List.Forall_forall in Hk. now apply Hk.
Qed.

(** C6: the classes enumerated in phase 2 all come from the catalogue, have
    a name that is not empty, are active for the session and are not
    interactive; the classes whose [args] is called are among them; every
    sub-parser added, and every entry of [parsers], is the parser of such a
    class. *)
Theorem subparsers_only_for_kept user_session (catalogue : list (Command Session)) :
  let built := parse_args_subparsers user_session catalogue in
  Forall (is_kept user_session catalogue) (classes user_session catalogue)
  ∧ Forall (is_kept user_session catalogue) (declared built)
  ∧ subparsers built = map module_parser_of (declared built)
  ∧ map_Forall (λ n p, ∃ cls, is_kept user_session catalogue cls
                              ∧ name cls = n ∧ p = module_parser_of cls)
      (parsers built).
Proof.
cbv zeta. split; [apply classes_kept|]. split; [apply declared_kept|].
split; [apply declared_firsts|].
intros n p Hp. unfold parse_args_subparsers in Hp.
rewrite add_module_parsers_lookup in Hp. cbn [parsers nothing_built] in Hp.
rewrite lookup_empty in Hp.
destruct (first_named n (sorted (classes user_session catalogue)))
  as [cls|] eqn:Hf; [|discriminate].
injection Hp as <-. exists cls.
unfold first_named in Hf. apply find_some in Hf as [Hin Hn].
apply String.eqb_eq in Hn. apply (proj1 (sorted_In _ _)) in Hin.
pose proof (classes_kept user_session catalogue) as Hk.
rewrite List.Forall_forall in Hk. split; [now apply Hk|]. now split.
Qed.


End WithSession.

End Phase2Props.

(** ** The bundle loader *)

Module LoaderProps.
Import Loader.

Section WithEnvironment.

Variable Env : Type.
Variable access : string → bool.
Variable abspath : string → string.
Variable ZipFile : string → option (list string).
Variable __import__ :
  string → list string → Env → list string * Env * option raised.

(** Imported code leaves the search path as it found it. *)
Hypothesis import_keeps_path :
  ∀ module_name search_path e,
    (__import__ module_name search_path e).1.1 = search_path.

#[local] Abbreviation world := (world Env).
#[local] Abbreviation attempt := (attempt Env __import__).
#[local] Abbreviation try_import := (try_import Env __import__).
#[local] Abbreviation load_file := (load_file Env __import__).
#[local] Abbreviation load_entries := (load_entries Env __import__).
#[local] Abbreviation load_archive := (load_archive Env ZipFile __import__).
#[local] Abbreviation load_path := (load_path Env access abspath ZipFile __import__).
#[local] Abbreviation LoadPlugins := (LoadPlugins Env access abspath ZipFile __import__).

Lemma try_import_effect path module_name (w : world) :
  sys_path Env (try_import path module_name w).1 = sys_path Env w
  ∧ trace Env (try_import path module_name w).1
    = trace Env w ++ [Import module_name (sys_path Env w)].
Proof.
unfold Loader.try_import, Loader.attempt.
pose proof (import_keeps_path module_name (sys_path Env w) (env Env w)) as Hk.
destruct (__import__ module_name (sys_path Env w) (env Env w)) as [[p e] r].
cbn in Hk. subst p.
destruct r as [[[] msg]|]; cbn; split; reflexivity.
Qed.

Lemma load_entries_effect path names (w : world) :
  sys_path Env (load_entries path names w).1 = sys_path Env w
  ∧ ∃ ms, trace Env (load_entries path names w).1
          = trace Env w ++ map (λ m, Import m (sys_path Env w)) ms.
Proof.
revert w. induction names as [|name rest IH]; intros w.
- cbn. split; [reflexivity|]. exists []. now rewrite app_nil_r.
- cbn [Loader.load_entries].
  destruct (OsPath.splitext name) as [module_name ext].
  destruct (elem ext PYTHON_EXTENSIONS); [|apply IH].
  set (m := strip_slashes (replace "\" "." (replace "/" "." module_name))).
  destruct (try_import_effect path m w) as [Hp Ht].
  destruct (try_import path m w) as [w1 [e|]]; cbn [fst] in *.
  + split; [exact Hp|]. exists [m]. exact Ht.
  + destruct (IH w1) as [Hp1 [ms Ht1]]. split; [congruence|].
    exists (m :: ms). rewrite Ht1, Ht, Hp. cbn [map]. now rewrite <- app_assoc.
Qed.








End WithEnvironment.



(** C9, at the input where the code departs from it: [ZipFile] is called
    outside every [try], so a readable path with the archive extension that
    is no archive ends [LoadPlugins] with the exception, and the next path
    is not attempted; a module file whose import raises is logged and the
    next path attempted. *)
Theorem bad_archive_stops_the_loader :
  example_LoadPlugins ["/plugins/bad.zip"; "/plugins/good.py"]
  = (example_world, Some (ZipFileError "/plugins/bad.zip"))
  ∧ attempted
      (trace unit (example_LoadPlugins ["/plugins/bad.zip"; "/plugins/good.py"]).1)
    = []
  ∧ (example_LoadPlugins ["/plugins/bad.py"; "/plugins/good.py"]).2 = None
  ∧ attempted
      (trace unit (example_LoadPlugins ["/plugins/bad.py"; "/plugins/good.py"]).1)
    = ["bad"; "good"]
  ∧ log unit (example_LoadPlugins ["/plugins/bad.py"; "/plugins/good.py"]).1
    = [LogInfo "Loading user plugin /plugins/bad.py";
       LogError "Error loading user plugin /plugins/bad.py: boom";
       LogInfo "Loading user plugin /plugins/good.py"].
Proof. repeat split; vm_compute; reflexivity. Qed.

Section EntryIsolation.

Variable Env : Type.
Variable __import__ :
  string → list string → Env → list string * Env * option raised.

(** What imports raise derives from [Exception]. *)
Hypothesis raises_exceptions :
  ∀ module_name search_path e message,
    (__import__ module_name search_path e).2 ≠ Some (Raised false message).

Lemma attempted_app t1 t2 : attempted (t1 ++ t2) = attempted t1 ++ attempted t2.
Proof.
induction t1 as [|[location|m sp|] r IH]; cbn; now rewrite ?IH.
Qed.

Lemma try_import_caught path module_name (w : world Env) :
  (try_import Env __import__ path module_name w).2 = None
  ∧ attempted (trace Env (try_import Env __import__ path module_name w).1)
    = attempted (trace Env w) ++ [module_name].
Proof.
unfold try_import, attempt.
pose proof (raises_exceptions module_name (sys_path Env w) (env Env w)) as Hr.
destruct (__import__ module_name (sys_path Env w) (env Env w)) as [[p e] r].
cbn in Hr.
destruct r as [[[] msg]|]; cbn; rewrite ?attempted_app; try (split; reflexivity).
now destruct (Hr msg).
Qed.

(** Inside an archive a failing entry is logged and every later entry with
    a recognised extension is still attempted. *)
Lemma load_entries_attempts_all path names (w : world Env) :
  (load_entries Env __import__ path names w).2 = None
  ∧ attempted (trace Env (load_entries Env __import__ path names w).1)
    = attempted (trace Env w) ++ entry_modules names.
Proof.
revert w. induction names as [|name rest IH]; intros w.
- cbn. now rewrite app_nil_r.
- cbn [load_entries entry_modules].
  destruct (OsPath.splitext name) as [module_name ext].
  destruct (elem ext PYTHON_EXTENSIONS); [|apply IH].
  set (m := strip_slashes (replace "\" "." (replace "/" "." module_name))).
  destruct (try_import_caught path m w) as [Hn Ha].
  destruct (try_import Env __import__ path m w) as [w1 r]. cbn [fst snd] in *.
  subst r. destruct (IH w1) as [Hn1 Ha1]. split; [exact Hn1|].
  rewrite Ha1, Ha. now rewrite <- app_assoc.
Qed.

End EntryIsolation.

End LoaderProps.

(** ** Further properties of the value coercers *)

Module CoercerFacts.
Import IntParser ArrayIntParser IntLiteral.

Lemma alternation_other c r :
  c ≠ "m"%char → c ≠ "k"%char → alternation (String c r) = None.
Proof.
intros Hm Hk. destruct (alternation (String c r)) as [g2|] eqn:Ha; [|reflexivity].
apply IntParserProps.alternation_head in Ha as [->| ->]; congruence.
Qed.

Lemma suffix_char_split c r :
  no_suffix_char (String c r) = true →
  c ≠ "m"%char ∧ c ≠ "k"%char ∧ no_suffix_char r = true.
Proof.
cbn [no_suffix_char]. intros H.
apply andb_prop in H as [H Hr]. apply andb_prop in H as [Hm Hk].
apply negb_true_iff in Hm, Hk.
repeat split; [| |exact Hr]; intros ->; discriminate.
Qed.

(** A line without suffix character gives the pattern nothing to match. *)
Lemma match_here_line a s :
  no_suffix_char a = true → match_here (a +:+ String newline s) = None.
Proof.
induction a as [|c r IH]; intros Ha.
- change ("" +:+ String newline s) with (String newline s).
  cbn [match_here]. replace (Ascii.eqb newline newline) with true by reflexivity.
  rewrite alternation_other; [reflexivity| |]; intros H; vm_compute in H; discriminate.
- apply suffix_char_split in Ha as (Hm & Hk & Hr).
  change (String c r +:+ String newline s) with (String c (r +:+ String newline s)).
  cbn [match_here]. rewrite (IH Hr), (alternation_other _ _ Hm Hk).
  now destruct (Ascii.eqb c newline).
Qed.

Lemma search_line a s :
  no_suffix_char a = true → search (a +:+ String newline s) = search s.
Proof.
induction a as [|c r IH]; intros Ha.
- pose proof (match_here_line "" s eq_refl) as H.
  change ("" +:+ String newline s) with (String newline s) in *.
  cbn [search]. now rewrite H.
- pose proof (match_here_line _ s Ha) as H.
  apply suffix_char_split in Ha as (_ & _ & Hr).
  change (String c r +:+ String newline s) with (String c (r +:+ String newline s)) in *.
  cbn [search]. rewrite H. now apply IH.
Qed.

(** X1: what stands before a line feed is dropped without an error when it
    holds no lower-case m or k: the pattern is searched line by line, so
    the token [junk], a line feed, then [pre ++ suf ++ rest] is parsed as
    [pre] with the multiplier of [suf]. *)
Theorem parse_int_drops_earlier_lines junk pre suf rest :
  no_suffix_char junk = true → In suf suffixes →
  no_suffix_char rest = true → no_newline pre = true →
  parse_int (junk +:+ String newline (pre +:+ suf +:+ rest))
  = convert pre (multiplier_of suf).
Proof.
intros Hjunk Hin Hrest Hpre.
rewrite IntParserProps.parse_int_unfold, (search_line _ _ Hjunk).
destruct (IntParserProps.search_last pre suf rest Hin Hrest Hpre)
  as (g2 & -> & ->).
reflexivity.
Qed.

Lemma parse_int_drops_earlier_lines_witness :
  parse_int ("abc" +:+ String newline "4k") = Ok 4096.
Proof.
exact (parse_int_drops_earlier_lines "abc" "4" "k" ""
         eq_refl (or_intror (or_intror (or_intror (or_introl eq_refl))))
         eq_refl eq_refl).
Defined.

(** *** Tokens that [int] rejects *)

Lemma all_allowed_lstrip base s :
  all_allowed base (Py.lstrip s) = true → all_allowed base s = true.
Proof.
induction s as [|c r IH]; [trivial|].
cbn [Py.lstrip all_allowed]. destruct (Py.isspace c) eqn:Hc; [|trivial].
intros H. rewrite (IH H). unfold allowed. now rewrite Hc.
Qed.

Lemma all_space_allowed base s :
  Py.all_space s = true → all_allowed base s = true.
Proof.
induction s as [|c r IH]; [trivial|].
cbn [Py.all_space all_allowed]. intros H. apply andb_prop in H as [Hc Hr].
rewrite (IH Hr). unfold allowed. now rewrite Hc.
Qed.

Lemma digit_allowed base c d : Py.digit_in base c = Some d → allowed base c = true.
Proof.
intros H. unfold allowed. rewrite H.
rewrite bool_decide_eq_true_2 by eauto. now rewrite orb_true_r.
Qed.

Lemma read_digits_allowed base acc s n rest :
  Py.read_digits base acc s = (n, rest) → Py.all_space rest = true →
  all_allowed base s = true.
Proof.
revert acc. induction s as [|c r IH]; intros acc; [trivial|].
cbn [Py.read_digits all_allowed].
destruct (Py.digit_in base c) as [d|] eqn:Hd.
- intros H Hrest. rewrite (digit_allowed _ _ _ Hd). now apply (IH _ H).
- intros [= <- <-] Hrest. now apply (all_space_allowed base) in Hrest.
Qed.

Lemma skip_radix_cases base body :
  Py.skip_radix base body = body
  ∨ (base = 16 ∧ ∃ x t, body = String "0" (String x t)
                        ∧ (x = "x"%char ∨ x = "X"%char)
                        ∧ Py.skip_radix base body = t).
Proof.
destruct body as [|a s1]; [now left|].
destruct (Ascii.eqb_spec a "0") as [->|Ha].
- destruct s1 as [|x [|c r]]; [now left | now left |].
  unfold Py.skip_radix.
  destruct ((base =? 16) && (Ascii.eqb x "x" || Ascii.eqb x "X")
            && bool_decide (is_Some (Py.digit_in 16 c))) eqn:Hcond; [|now left].
  apply andb_prop in Hcond as [Hcond _]. apply andb_prop in Hcond as [Hb Hx].
  apply Z.eqb_eq in Hb. right. split; [exact Hb|].
  exists x, (String c r). split; [reflexivity|]. split; [|reflexivity].
  apply orb_prop in Hx as [Hx|Hx]; apply Ascii.eqb_eq in Hx; auto.
- left. destruct a as [[] [] [] [] [] [] [] []];
    first [reflexivity | now destruct s1 as [|x [|c r]] | contradiction Ha; reflexivity].
Qed.

Lemma read_sign_cases s :
  Py.read_sign s = (false, s)
  ∨ ∃ neg body, (s = String "-" body ∨ s = String "+" body)
                ∧ Py.read_sign s = (neg, body).
Proof.
destruct s as [|a body]; [now left|].
destruct (Ascii.eqb_spec a "-") as [->|Hm]; [right; exists true, body; auto|].
destruct (Ascii.eqb_spec a "+") as [->|Hp]; [right; exists false, body; auto|].
left. destruct a as [[] [] [] [] [] [] [] []];
  first [reflexivity | contradiction Hm; reflexivity | contradiction Hp; reflexivity].
Qed.

(** [int] reads allowed characters only. *)
Lemma int_all_allowed s base n :
  base = 10 ∨ base = 16 → Py.int s base = Some n → all_allowed base s = true.
Proof.
intros Hbase. unfold Py.int. intros H. apply all_allowed_lstrip.
destruct (Py.read_sign (Py.lstrip s)) as [neg body] eqn:Hsign.
assert (Hdigits : all_allowed base (Py.skip_radix base body) = true).
{ destruct (Py.skip_radix base body) as [|c r] eqn:Hskip; [reflexivity|].
  destruct (Py.digit_in base c); [|discriminate].
  destruct (Py.read_digits base 0 (String c r)) as [m rest] eqn:Hr.
  destruct (Py.all_space rest) eqn:Hrest; [|discriminate].
  exact (read_digits_allowed _ _ _ _ _ Hr Hrest). }
assert (Hbody : all_allowed base body = true).
{ destruct (skip_radix_cases base body) as [Heq|(-> & x & t & -> & Hx & Heq)].
  - now rewrite Heq in Hdigits.
  - rewrite Heq in Hdigits. cbn [all_allowed]. rewrite Hdigits.
    destruct Hx as [->| ->]; reflexivity. }
destruct (read_sign_cases (Py.lstrip s)) as [Heq|(neg' & body' & Hs & Heq)].
- rewrite Heq in Hsign. injection Hsign as _ <-. exact Hbody.
- rewrite Heq in Hsign. injection Hsign as -> ->.
  destruct Hs as [-> | ->]; cbn [all_allowed]; rewrite Hbody;
    destruct Hbase as [->| ->]; reflexivity.
Qed.

Lemma all_allowed_contains base c s :
  all_allowed base s = true → contains c s = true → allowed base c = true.
Proof.
induction s as [|a r IH]; [discriminate|].
cbn [all_allowed contains]. intros H Hc.
apply andb_prop in H as [Ha Hr].
apply orb_prop in Hc as [Hc|Hc]; [|now apply IH].
apply Ascii.eqb_eq in Hc. now subst a.
Qed.

(** X2: a token that holds an upper-case K or M and no lower-case m or k is
    always rejected: no suffix is recognised and [int] does not read the
    letter. *)
Theorem parse_int_upper_case_rejected token :
  no_suffix_char token = true →
  contains "K" token || contains "M" token = true →
  parse_int token = Raise (ArgumentError "Invalid integer value").
Proof.
intros Hno Hup.
rewrite (IntParserProps.parse_int_without_suffix _ Hno). unfold convert.
assert (Hnone : ∀ base, base = 10 ∨ base = 16 → Py.int token base = None).
{ intros base Hbase. destruct (Py.int token base) as [n|] eqn:Hi; [|reflexivity].
  apply (int_all_allowed _ _ _ Hbase) in Hi.
  apply orb_prop in Hup as [Hc|Hc];
    pose proof (all_allowed_contains _ _ _ Hi Hc) as Ha;
    destruct Hbase as [->| ->]; vm_compute in Ha; discriminate. }
destruct (Py.startswith token "0x"); rewrite Hnone; auto.
Qed.

Lemma parse_int_upper_case_rejected_witness :
  parse_int "0x4KB" = Raise (ArgumentError "Invalid integer value").
Proof.
exact (parse_int_upper_case_rejected "0x4KB" eq_refl eq_refl).
Defined.

End CoercerFacts.

(** ** Further properties of the list parsers *)

Module ListParserFacts.
Import IntParser ArrayIntParser.

Lemma parse_int_error value e :
  parse_int value = Raise e → e = ArgumentError "Invalid integer value".
Proof.
rewrite IntParserProps.parse_int_unfold. unfold convert.
destruct (search value) as [[g1 g2]|];
  repeat match goal with
         | |- context [if ?b then _ else _] => destruct b
         | |- context [match ?o with Some _ => _ | None => _ end] => destruct o
         end; congruence.
Qed.

Lemma comprehension_ok xs :
  (∃ ns, comprehension xs = Ok ns) ↔ Forall (λ x, ∃ n, parse_int x = Ok n) xs.
Proof.
induction xs as [|x r IH]; cbn [comprehension].
- split; [constructor | eauto].
- split.
  + intros [ns H]. destruct (parse_int x) as [n|] eqn:Hx; [|discriminate].
    cbn [mbind mret res_mbind res_mret res_bind] in H.
    destruct (comprehension r) as [ms|] eqn:Hr; [|discriminate].
    constructor; [eauto|]. apply IH. eauto.
  + intros H. apply Forall_cons in H as [[n Hx] Hr].
    apply IH in Hr as [ms Hr]. rewrite Hx, Hr. eauto.
Qed.

Lemma comprehension_error xs e :
  comprehension xs = Raise e → e = ArgumentError "Invalid integer value".
Proof.
induction xs as [|x r IH]; cbn [comprehension]; [discriminate|].
destruct (parse_int x) as [n|e'] eqn:Hx; res_simpl.
- destruct (comprehension r) as [ms|e'']; res_simpl; [discriminate|].
  intros [= <-]. now apply IH.
- intros [= <-]. now apply (parse_int_error x).
Qed.

(** X3: [ArrayIntParser] gives a list exactly when every sub-token of every
    token parses; one malformed sub-token anywhere makes the whole option
    fail, always with the error "Invalid integer value". *)
Theorem parse_list_all_or_nothing (values : list string) :
  ((∃ ns, parse_list (Several values) = Ok ns)
   ↔ Forall (λ x, ∃ n, parse_int x = Ok n) (concat (Py.split "," <$> values)))
  ∧ ∀ e, parse_list (Several values) = Raise e →
         e = ArgumentError "Invalid integer value".
Proof.
rewrite ArrayIntParserProps.parse_list_flat.
split; [apply comprehension_ok | apply comprehension_error].
Qed.

(** *** [ArrayStringParser] *)

Lemma extend_all_strings_flat values result :
  ArrayStringParser.extend_all values result
  = result ++ concat (Py.split "," <$> values).
Proof.
revert result. induction values as [|v r IH]; intros result.
- cbn. now rewrite app_nil_r.
- cbn [ArrayStringParser.extend_all]. rewrite IH, fmap_cons. cbn [concat].
  now rewrite app_assoc.
Qed.

Lemma split_not_nil sep s : Py.split sep s ≠ [].
Proof.
destruct s as [|c r]; cbn [Py.split]; [discriminate|].
destruct (Ascii.eqb c sep); [discriminate|].
destruct (Py.split sep r); discriminate.
Qed.

Lemma join_split sep s : Py.join sep (Py.split sep s) = s.
Proof.
induction s as [|c r IH]; [reflexivity|].
cbn [Py.split]. pose proof (split_not_nil sep r) as Hne.
destruct (Ascii.eqb_spec c sep) as [->|Hc].
- destruct (Py.split sep r) as [|p ps]; [contradiction|].
  change (Py.join sep ("" :: p :: ps))
    with ("" +:+ String sep (Py.join sep (p :: ps))).
  now rewrite IH.
- destruct (Py.split sep r) as [|p ps]; [contradiction|].
  destruct ps as [|q qs].
  + cbn [Py.join] in *. now rewrite IH.
  + change (Py.join sep (String c p :: q :: qs))
      with (String c (p +:+ String sep (Py.join sep (q :: qs)))).
    change (Py.join sep (p :: q :: qs))
      with (p +:+ String sep (Py.join sep (q :: qs))) in IH.
    now rewrite IH.
Qed.

(** X4: [ArrayStringParser] takes a group of values written as one
    comma-joined token or as separate tokens, in any mix, and gives the
    values of all groups in order, without coercion and without removing
    duplicates; nothing of a token is lost or trimmed: what is stored for
    one token is its split on commas, and joining it with commas gives the
    token back. *)
Theorem ArrayStringParser_forms (groups : list (list string)) (token : string) :
  Forall well_formed_group groups →
  ArrayStringParser.parse_list (Several (Py.join "," <$> groups)) = concat groups
  ∧ ArrayStringParser.parse_list (Several (concat groups)) = concat groups
  ∧ ArrayStringParser.parse_list (Single token) = Py.split "," token
  ∧ Py.join "," (ArrayStringParser.parse_list (Single token)) = token.
Proof.
intros Hg. unfold ArrayStringParser.parse_list. cbn [as_list].
rewrite !extend_all_strings_flat. cbn [app].
rewrite ArrayIntParserProps.concat_split_joined,
  ArrayIntParserProps.concat_split_separate by exact Hg.
rewrite fmap_cons. cbn [fmap list_fmap concat]. rewrite app_nil_r.
repeat split. apply join_split.
Qed.

Lemma ArrayStringParser_forms_witness :
  ArrayStringParser.parse_list (Several ["a,b"; "a"; "c d,"%string])
  = ["a"; "b"; "a"; "c d"; ""].
Proof.
exact (proj1 (ArrayStringParser_forms [["a"; "b"]; ["a"]; ["c d"; ""]] ""
                ltac:(repeat constructor; discriminate))).
Defined.

End ListParserFacts.

(** ** [MockArgParser] *)

Module MockArgParserFacts.
Import MockArgParser.

Lemma declare_lookup calls (args : gmap string pyobj) key :
  is_Some (declare calls args !! key)
  ↔ is_Some (args !! key) ∨ In key (arg_names calls).
Proof.
revert args. induction calls as [|[[s l] d] r IH]; intros args.
- cbn. tauto.
- cbn [declare foldl arg_names map]. fold (declare r (add_argument s l d args)).
  rewrite IH. unfold add_argument. rewrite lookup_insert_is_Some.
  cbn [In]. fold (arg_names r).
  destruct (decide (arg_name s l d = key)) as [Heq|Hne]; [tauto|].
  tauto.
Qed.

Lemma fill_ok keys (namespace args : gmap string pyobj) :
  Forall (λ key, is_Some (namespace !! key)) keys →
  ∃ filled, fill keys namespace args = Ok filled
            ∧ ∀ key, filled !! key
                     = if bool_decide (key ∈ keys) then namespace !! key
                       else args !! key.
Proof.
revert args. induction keys as [|k r IH]; intros args Hall.
- exists args. split; [reflexivity|]. intros key.
  rewrite bool_decide_eq_false_2; [reflexivity|]. apply not_elem_of_nil.
- apply Forall_cons in Hall as [[v Hv] Hr]. cbn [fill]. rewrite Hv.
  destruct (IH (<[k := v]> args) Hr) as (filled & -> & Hf).
  exists filled. split; [reflexivity|]. intros key. rewrite Hf.
  destruct (decide (key ∈ r)) as [Hin|Hin].
  + rewrite !bool_decide_eq_true_2; [reflexivity | now right | exact Hin].
  + rewrite (bool_decide_eq_false_2 _ Hin).
    destruct (decide (key = k)) as [->|Hne].
    * rewrite bool_decide_eq_true_2 by now left.
      now rewrite lookup_insert_eq.
    * rewrite bool_decide_eq_false_2.
      -- now rewrite lookup_insert_ne.
      -- intros Hc. apply elem_of_cons in Hc as [?|?]; contradiction.
Qed.

Lemma declared_keys calls key :
  key ∈ map fst (map_to_list (declare calls ∅)) ↔ key ∈ arg_names calls.
Proof.
change (map fst (map_to_list (declare calls ∅)))
  with ((map_to_list (declare calls ∅)).*1).
rewrite list_elem_of_fmap. split.
- intros ([k v] & -> & Hkv). apply elem_of_map_to_list in Hkv.
  assert (Hs : is_Some (declare calls ∅ !! k)) by eauto.
  apply declare_lookup in Hs as [Hs|Hs]; [|now apply list_elem_of_In].
  rewrite lookup_empty in Hs. now destruct Hs.
- intros Hin. apply list_elem_of_In in Hin.
  assert (Hs : is_Some (declare calls ∅ !! key)) by (apply declare_lookup; now right).
  destruct Hs as [v Hv]. exists (key, v). split; [reflexivity|].
  now apply elem_of_map_to_list.
Qed.

(** X5: when the namespace holds every declared argument,
    [build_args_dict] returns a dictionary with the declared names as its
    keys and nothing else, each with the value the namespace holds for it:
    the other attributes of the namespace are left out. *)
Theorem build_args_dict_declared calls (namespace : gmap string pyobj) :
  Forall (λ key, is_Some (namespace !! key)) (arg_names calls) →
  ∃ kwargs, build_args_dict calls namespace = Ok kwargs
            ∧ ∀ key, kwargs !! key
                     = if bool_decide (key ∈ arg_names calls)
                       then namespace !! key else None.
Proof.
intros Hall. unfold build_args_dict.
destruct (fill_ok (map fst (map_to_list (declare calls ∅))) namespace
            (declare calls ∅)) as (filled & Hfill & Hf).
{ apply Forall_forall. intros key Hin.
  apply declared_keys in Hin.
  rewrite Forall_forall in Hall. now apply Hall. }
exists filled. split; [exact Hfill|]. intros key. rewrite Hf.
destruct (decide (key ∈ arg_names calls)) as [Hin|Hin].
- rewrite !bool_decide_eq_true_2; [reflexivity | exact Hin | now apply declared_keys].
- rewrite !bool_decide_eq_false_2; [| exact Hin | now rewrite declared_keys].
  destruct (declare calls ∅ !! key) as [v|] eqn:Hv; [|reflexivity].
  assert (Hs : is_Some (declare calls ∅ !! key)) by eauto.
  apply declare_lookup in Hs as [Hs|Hs].
  + rewrite lookup_empty in Hs. now destruct Hs.
  + apply list_elem_of_In in Hs. contradiction.
Qed.

Lemma build_args_dict_declared_witness :
  ∃ kwargs,
    build_args_dict [("-p", "--pid", ""); ("", "", "proc-regex")]
      (<["pid" := PInt 4]> (<["proc_regex" := PStr "svc"]> (<["output" := PNone]> ∅)))
    = Ok kwargs.
Proof.
destruct (build_args_dict_declared [("-p", "--pid", ""); ("", "", "proc-regex")]
            (<["pid" := PInt 4]> (<["proc_regex" := PStr "svc"]> (<["output" := PNone]> ∅))))
  as (kwargs & H & _).
- repeat constructor.
  + change (arg_name "-p" "--pid" "") with "pid". rewrite lookup_insert_eq. eauto.
  + change (arg_name "" "" "proc-regex") with "proc_regex".
    rewrite lookup_insert_ne by discriminate. rewrite lookup_insert_eq. eauto.
- exists kwargs. exact H.
Defined.

End MockArgParserFacts.

(** ** Further properties of the two phases *)

Section Phase1Facts.

Variable MergeConfigOptions : gmap string pyobj → gmap string pyobj.

(** X6: with a truthy [verbose] in the parsed namespace the session state
    ends with [logging] set to DEBUG, whatever logging level was parsed and
    whatever the registry merge wrote; [verbose] itself is stored as
    parsed. *)
Theorem verbose_forces_debug (known_args state : gmap string pyobj) (v : pyobj) :
  known_args !! "verbose" = Some v → truthy v = true →
  LoadProfileIntoSession_state MergeConfigOptions known_args state !! "logging"
  = Some (PStr "DEBUG")
  ∧ LoadProfileIntoSession_state MergeConfigOptions known_args state !! "verbose"
    = Some v.
Proof.
intros Hv Ht.
unfold LoadProfileIntoSession_state, merge_and_set, SessionState.transaction,
  force_verbose, getattr_truthy.
rewrite Hv, Ht, !set_all_lookup. split.
- now rewrite lookup_insert_eq.
- rewrite lookup_insert_ne by discriminate. now rewrite Hv.
Qed.

End Phase1Facts.

Lemma verbose_forces_debug_witness :
  LoadProfileIntoSession_state (λ state, <["logging" := PStr "WARNING"]> state)
    (<["verbose" := PBool true]> (<["logging" := PStr "ERROR"]> ∅)) ∅ !! "logging"
  = Some (PStr "DEBUG").
Proof.
exact (proj1 (verbose_forces_debug (λ state, <["logging" := PStr "WARNING"]> state)
                (<["verbose" := PBool true]> (<["logging" := PStr "ERROR"]> ∅)) ∅
                (PBool true) (lookup_insert_eq _ _ _) eq_refl)).
Defined.

Module Phase2Facts.
Import Phase2 Phase2Props.

Lemma str_lt_asym a b : String.ltb a b = true → String.ltb b a = true → False.
Proof.
unfold String.ltb. rewrite (String.compare_antisym b a).
destruct (String.compare a b); discriminate.
Qed.

Section WithSession.

Variable Session : Type.
Implicit Types (cls x y : Command Session) (l : list (Command Session)).

(** *** Classes of distinct names *)

Lemma ascending_strict l :
  ascending l → NoDup (map name l) →
  StronglySorted (λ x y, String.ltb (name x) (name y) = true) l.
Proof.
unfold ascending. induction 1 as [|x r Hr IH Hx]; intros Hnd; [constructor|].
cbn [map] in Hnd. apply NoDup_cons in Hnd as [Hnx Hnd].
constructor; [now apply IH|].
apply List.Forall_forall. intros y Hy.
rewrite List.Forall_forall in Hx.
apply str_le_lt; [now apply Hx|].
intros Heq. apply Hnx. rewrite Heq. apply list_elem_of_In. now apply in_map.
Qed.

Lemma strict_perm_eq l1 l2 :
  StronglySorted (λ x y, String.ltb (name x) (name y) = true) l1 →
  StronglySorted (λ x y, String.ltb (name x) (name y) = true) l2 →
  Permutation l1 l2 → l1 = l2.
Proof.
intros H1. revert l2. induction H1 as [|x r1 Hr1 IH Hx]; intros l2 H2 Hp.
- now apply Permutation_nil in Hp.
- destruct H2 as [|y r2 Hr2 Hy].
  { apply Permutation_sym, Permutation_nil in Hp. discriminate. }
  assert (Hxy : x = y).
  { assert (Hin1 : In x (y :: r2)) by (apply (Permutation_in _ Hp); now left).
    assert (Hin2 : In y (x :: r1))
      by (apply (Permutation_in _ (Permutation_sym Hp)); now left).
    destruct Hin1 as [Heq|Hin1]; [now symmetry|].
    destruct Hin2 as [Heq|Hin2]; [exact Heq|].
    rewrite List.Forall_forall in Hx, Hy.
    destruct (str_lt_asym _ _ (Hx _ Hin2) (Hy _ Hin1)). }
  subst y. f_equal. apply IH; [exact Hr2|].
  now apply Permutation_cons_inv in Hp.
Qed.

Lemma sorted_names_NoDup l : NoDup (map name l) → NoDup (map name (sorted l)).
Proof.
intros H. now rewrite (Permutation_map name (sorted_perm _ l)).
Qed.

Lemma filter_perm {A} (f : A → bool) (l1 l2 : list A) :
  Permutation l1 l2 → Permutation (List.filter f l1) (List.filter f l2).
Proof.
induction 1 as [|x l1 l2 _ IH|x y l|l1 l2 l3 _ IH1 _ IH2]; cbn [List.filter].
- constructor.
- destruct (f x); [now constructor | exact IH].
- destruct (f x), (f y); try reflexivity. apply perm_swap.
- now transitivity (List.filter f l2).
Qed.

(** X7: when the kept classes have pairwise distinct names, what phase 2
    builds does not depend on the order in which the catalogue enumerates
    its classes. *)
Theorem subparsers_order_independent user_session
    (catalogue1 catalogue2 : list (Command Session)) :
  Permutation catalogue1 catalogue2 →
  NoDup (map name (classes user_session catalogue1)) →
  parse_args_subparsers user_session catalogue1
  = parse_args_subparsers user_session catalogue2.
Proof.
intros Hp Hnd. unfold parse_args_subparsers. f_equal.
assert (Hc : Permutation (classes user_session catalogue1)
                         (classes user_session catalogue2))
  by now apply filter_perm.
assert (Hnd2 : NoDup (map name (classes user_session catalogue2))).
{ now rewrite <- (Permutation_map name Hc). }
apply strict_perm_eq.
- apply ascending_strict; [apply sorted_ascending | now apply sorted_names_NoDup].
- apply ascending_strict; [apply sorted_ascending | now apply sorted_names_NoDup].
- rewrite !sorted_perm. exact Hc.
Qed.

End WithSession.

(** Two classes of distinct names, enumerated in either order. *)
Lemma subparsers_order_independent_witness :
  parse_args_subparsers tt
    [mkCommand unit "pslist" (λ _, true) false None (λ p, p);
     mkCommand unit "dlllist" (λ _, true) false None (λ p, p)]
  = parse_args_subparsers tt
      [mkCommand unit "dlllist" (λ _, true) false None (λ p, p);
       mkCommand unit "pslist" (λ _, true) false None (λ p, p)].
Proof.
apply (subparsers_order_independent unit tt).
- apply perm_swap.
- cbn. repeat constructor.
  + intros H. apply list_elem_of_singleton in H. discriminate.
  + apply not_elem_of_nil.
Defined.

End Phase2Facts.

(** ** Further properties of the bundle loader *)

Module LoaderFacts.
Import Loader LoaderProps.

Section WithEnvironment.

Variable Env : Type.
Variable access : string → bool.
Variable abspath : string → string.
Variable ZipFile : string → option (list string).
Variable __import__ :
  string → list string → Env → list string * Env * option raised.

#[local] Abbreviation LoadPlugins :=
  (LoadPlugins Env access abspath ZipFile __import__).
#[local] Abbreviation load_path :=
  (load_path Env access abspath ZipFile __import__).

(** Imported code leaves the search path as it found it, what it raises
    derives from [Exception], and every archive opens. *)
Hypothesis import_keeps_path :
  ∀ module_name search_path e,
    (__import__ module_name search_path e).1.1 = search_path.
Hypothesis raises_exceptions :
  ∀ module_name search_path e message,
    (__import__ module_name search_path e).2 ≠ Some (Raised false message).
Hypothesis archives_open : ∀ path, ZipFile path ≠ None.

Lemma finally_pop_ok (w1 : world Env) location base :
  sys_path Env w1 = location :: base →
  (finally_pop Env (w1, None)).2 = None
  ∧ attempted (trace Env (finally_pop Env (w1, None)).1) = attempted (trace Env w1).
Proof.
intros Hp. unfold finally_pop, pop0. rewrite Hp. cbn.
rewrite attempted_app. cbn. now rewrite app_nil_r.
Qed.

Lemma load_path_ok path (w : world Env) :
  (load_path path w).2 = None
  ∧ attempted (trace Env (load_path path w).1)
    = attempted (trace Env w) ++ path_modules access abspath ZipFile path.
Proof.
unfold Loader.load_path, path_modules.
destruct (access path); cbn [negb];
  [|cbn; now rewrite app_nil_r].
destruct (OsPath.split (abspath path)) as [directory filename].
destruct (OsPath.splitext filename) as [module_name ext].
destruct (elem ext PYTHON_EXTENSIONS).
- unfold load_file.
  set (w0 := logging Env _ (insert0 Env directory w)).
  destruct (try_import_effect Env __import__ import_keeps_path
              (abspath path) module_name w0) as [Hp _].
  destruct (try_import_caught Env __import__ raises_exceptions
              (abspath path) module_name w0) as [Hn Ha].
  destruct (try_import Env __import__ (abspath path) module_name w0)
    as [w1 r]. cbn [fst snd] in *. subst r.
  destruct (finally_pop_ok w1 directory (sys_path Env w)) as [Hr Ht];
    [now rewrite Hp|].
  split; [exact Hr|]. rewrite Ht, Ha. cbn. rewrite attempted_app. cbn.
  now rewrite app_nil_r.
- destruct (String.eqb ext ".zip"); [|cbn; now rewrite app_nil_r].
  unfold load_archive. pose proof (archives_open (abspath path)) as Hopen.
  destruct (ZipFile (abspath path)) as [names|]; [|contradiction].
  set (w0 := logging Env _ (insert0 Env (abspath path) w)).
  destruct (load_entries_effect Env __import__ import_keeps_path
              (abspath path) names w0) as [Hp _].
  destruct (load_entries_attempts_all Env __import__ raises_exceptions
              (abspath path) names w0) as [Hn Ha].
  destruct (load_entries Env __import__ (abspath path) names w0)
    as [w1 r]. cbn [fst snd] in *. subst r.
  destruct (finally_pop_ok w1 (abspath path) (sys_path Env w)) as [Hr Ht];
    [now rewrite Hp|].
  split; [exact Hr|]. rewrite Ht, Ha. cbn. rewrite attempted_app. cbn.
  now rewrite app_nil_r.
Qed.

Lemma LoadPlugins_ok paths (w : world Env) :
  (LoadPlugins paths w).2 = None
  ∧ attempted (trace Env (LoadPlugins paths w).1)
    = attempted (trace Env w)
      ++ concat (map (path_modules access abspath ZipFile) paths).
Proof.
revert w. induction paths as [|path rest IH]; intros w.
- cbn. now rewrite app_nil_r.
- cbn [Loader.LoadPlugins map concat].
  destruct (load_path_ok path w) as [Hn Ha].
  destruct (load_path path w) as [w1 r]. cbn [fst snd] in *. subst r.
  destruct (IH w1) as [Hn1 Ha1]. split; [exact Hn1|].
  rewrite Ha1, Ha. now rewrite app_assoc.
Qed.

(** X8: when every archive opens, imports raise nothing but [Exception]s
    and leave the search path alone, [LoadPlugins] returns normally for
    every list of paths, and the modules it attempts are, in order and each
    once, those of each path in the order of the list: the module of a
    module file, the modules of the recognised entries of an archive in the
    order of the archive, none for an unreadable path or an unknown
    extension. *)
Theorem LoadPlugins_attempts paths (w : world Env) :
  (LoadPlugins paths w).2 = None
  ∧ attempted (trace Env (LoadPlugins paths w).1)
    = attempted (trace Env w)
      ++ concat (map (path_modules access abspath ZipFile) paths).
Proof. apply LoadPlugins_ok. Qed.

End WithEnvironment.

Lemma example_import_raises_exceptions module_name search_path e message :
  (example_import module_name search_path e).2 ≠ Some (Raised false message).
Proof.
unfold example_import. cbn. destruct (String.eqb module_name "bad"); discriminate.
Qed.

Lemma LoadPlugins_attempts_witness :
  attempted (trace unit
    (Loader.LoadPlugins unit (λ p, negb (String.eqb p "/gone.py")) (λ p, p)
       example_archives example_import
       ["/gone.py"; "/plugins/bad.py"; "/plugins/notes.txt"; "/plugins/bundle.zip"]
       example_world).1)
  = ["bad"; "pkg.a"; "b"].
Proof.
exact (proj2 (LoadPlugins_attempts unit (λ p, negb (String.eqb p "/gone.py")) (λ p, p)
         example_archives example_import (λ _ _ _, eq_refl)
         example_import_raises_exceptions (λ _, ltac:(discriminate))
         ["/gone.py"; "/plugins/bad.py"; "/plugins/notes.txt"; "/plugins/bundle.zip"]
         example_world)).
Defined.

End LoaderFacts.
